(** * Record normalisation and merge engine (app/utils/merge.py, app/views.py)

    A shallow embedding of the column canonicaliser, the record normaliser,
    key inference, the merge engine and the dashboard aggregations, together
    with the properties stated for them.

    Modelling conventions.
    - A Python [str] is a Rocq [string]; its characters are the code points
      below 256.  The string methods used by the program ([strip], [lower],
      [re.sub] on a character class) are written on [list ascii].
    - A Python [dict] is an association list in insertion order: assignment
      to an existing key keeps its position, assignment to a new key appends.
    - A cell value is [None], a [bool], an [int] or a [str]; the float and
      date cells a spreadsheet can also hold are not modelled.
    - Subscripting ([d[k]], [t[i]]) can raise; such code lives in the
      [result] monad. *)

From Stdlib Require Import ZArith NArith String Ascii List Bool Lia DecimalString.
From Stdlib Require Import Sorted.
From Stdlib Require PrimFloat SpecFloat FloatOps OrdersEx.
From stdpp Require Import base decidable option list strings gmap.
Import ListNotations.

Local Open Scope string_scope.
Local Open Scope list_scope.

(** ** Python strings *)

Module PyStr.

Definition code (c : ascii) : N := N_of_ascii c.

Definition between (lo hi : N) (c : ascii) : bool :=
  ((lo <=? code c) && (code c <=? hi))%N.

(** [str.isspace] on one character, which is also what [\s] matches and
    what [str.strip()] removes. *)
Definition isspace (c : ascii) : bool :=
  between 9 13 c || between 28 32 c
  || (code c =? 133)%N || (code c =? 160)%N.

(** The character class [a-z0-9]. *)
Definition is_az09 (c : ascii) : bool := between 97 122 c || between 48 57 c.

Definition is_upper (c : ascii) : bool :=
  between 65 90 c || between 192 214 c || between 216 222 c.

Definition lower_char (c : ascii) : ascii :=
  if is_upper c then ascii_of_N (code c + 32) else c.

Definition lower_l (l : list ascii) : list ascii := map lower_char l.

Fixpoint lstrip_l (l : list ascii) : list ascii :=
  match l with
  | [] => []
  | c :: l' => if isspace c then lstrip_l l' else l
  end.

Definition rstrip_l (l : list ascii) : list ascii := rev (lstrip_l (rev l)).

Definition strip_l (l : list ascii) : list ascii := rstrip_l (lstrip_l l).

(** [re.sub("C+", " ", s)] for a character class [C] given by [p]: every
    maximal run of characters of the class becomes one space.  [in_run]
    says that the previous character belonged to the class. *)
Fixpoint sub_runs (p : ascii -> bool) (in_run : bool) (l : list ascii)
  : list ascii :=
  match l with
  | [] => []
  | c :: l' =>
      if p c then
        if in_run then sub_runs p true l'
        else " "%char :: sub_runs p true l'
      else c :: sub_runs p false l'
  end.

Definition re_sub_class (p : ascii -> bool) (l : list ascii) : list ascii :=
  sub_runs p false l.

Definition strip (s : string) : string :=
  string_of_list_ascii (strip_l (list_ascii_of_string s)).

(** [s.replace(",", "")] *)
Definition remove_commas_l (l : list ascii) : list ascii :=
  List.filter (fun c => negb (Ascii.eqb c ","%char)) l.

Definition remove_commas (s : string) : string :=
  string_of_list_ascii (remove_commas_l (list_ascii_of_string s)).

End PyStr.

(** ** The column canonicaliser *)

Definition NORMALIZED_COLUMN_ALIASES : list (string * list string) :=
  [ ("organisation_id",
      [ "organisation id"; "org id"; "org_id"; "organisationid";
        "organization id"; "organization_id"; "company id"; "company_id" ]);
    ("customer", [ "customer"; "client"; "account"; "buyer" ]);
    ("name",
      [ "name"; "contact name"; "full name"; "contractor"; "contractor name" ]);
    ("product_status",
      [ "product status"; "product_status"; "status product" ]);
    ("engagement_status",
      [ "engagement status"; "engagement_status"; "status engagement";
        "project status" ]);
    ("carbon_factor",
      [ "carbon factor"; "carbon_factor"; "co2 factor"; "emissions factor" ]);
    ("next_activity_due_date",
      [ "next activity due date"; "next due"; "due date"; "next_activity";
        "next action due" ]) ].

Definition _canonicalize_l (name : list ascii) : list ascii :=
  let s := PyStr.lower_l (PyStr.strip_l name) in
  let s := PyStr.re_sub_class (fun c => negb (PyStr.is_az09 c)) s in
  PyStr.strip_l (PyStr.re_sub_class PyStr.isspace s).

Definition _canonicalize (name : string) : string :=
  string_of_list_ascii (_canonicalize_l (list_ascii_of_string name)).

(** The [for canonical, aliases in NORMALIZED_COLUMN_ALIASES.items()] loop of
    [_map_column], with its fall-through [return c_norm]. *)
Fixpoint _map_column_loop (c_norm : string)
  (table : list (string * list string)) : string :=
  match table with
  | [] => c_norm
  | (canonical, aliases) :: rest =>
      if String.eqb c_norm canonical || existsb (String.eqb c_norm) aliases
      then canonical
      else _map_column_loop c_norm rest
  end.

Definition _map_column (name : string) : string :=
  _map_column_loop (_canonicalize name) NORMALIZED_COLUMN_ALIASES.

(** ** Cell values *)

Inductive value : Type :=
| VNone
| VBool (b : bool)
| VInt (n : Z)
| VStr (s : string).

#[global] Instance value_eq_dec : EqDecision value.
Proof. solve_decision. Defined.

Definition is_none (v : value) : bool :=
  match v with VNone => true | _ => false end.

(** [str(v)] *)
Definition py_str (v : value) : string :=
  match v with
  | VNone => "None"
  | VBool true => "True"
  | VBool false => "False"
  | VInt n => NilZero.string_of_int (Z.to_int n)
  | VStr s => s
  end.

(** Truth value of [v], as tested by [if v], [v or w] and [bool(v)]. *)
Definition py_truthy (v : value) : bool :=
  match v with
  | VNone => false
  | VBool b => b
  | VInt n => negb (n =? 0)%Z
  | VStr s => negb (String.eqb s "")
  end.

(** [v or w] *)
Definition py_or (v w : value) : value := if py_truthy v then v else w.

(** [v == w]; a [bool] compares as the integer 0 or 1. *)
Definition py_eq (v w : value) : bool :=
  match v, w with
  | VNone, VNone => true
  | VStr s, VStr t => String.eqb s t
  | VInt n, VInt m => (n =? m)%Z
  | VBool b, VBool c => Bool.eqb b c
  | VBool b, VInt m | VInt m, VBool b => ((if b then 1 else 0) =? m)%Z
  | _, _ => false
  end.

(** [v in (w1, ..., wn)] *)
Definition py_in (v : value) (ws : list value) : bool := existsb (py_eq v) ws.

(** The test [v is None or str(v).strip() == ""] that the program repeats
    wherever it asks whether a cell carries information. *)
Definition is_blank (v : value) : bool :=
  is_none v || String.eqb (PyStr.strip (py_str v)) "".

(** ** Exceptions *)

Inductive exn : Type := KeyError | IndexError | ValueError | ZeroDivisionError.

Inductive result (A : Type) : Type :=
| Ok (a : A)
| Raise (e : exn).

Arguments Ok {A} a.
Arguments Raise {A} e.

Definition bind {A B : Type} (m : result A) (f : A -> result B) : result B :=
  match m with
  | Ok a => f a
  | Raise e => Raise e
  end.

Notation "x <- m ;; k" := (bind m (fun x => k))
  (at level 99, m at next level, right associativity, only parsing).

(** A [for] loop whose body can raise. *)
Fixpoint foldM {A B : Type} (f : A -> B -> result A) (l : list B) (a : A)
  : result A :=
  match l with
  | [] => Ok a
  | x :: l' => a' <- f a x ;; foldM f l' a'
  end.

(** ** Python dictionaries, in insertion order *)

Module Dict.
Section Ops.
Context {K V : Type} `{EqDecision K}.

Fixpoint lookup (d : list (K * V)) (k : K) : option V :=
  match d with
  | [] => None
  | (k', v) :: d' => if decide (k = k') then Some v else lookup d' k
  end.

(** [k in d] *)
Definition contains (d : list (K * V)) (k : K) : bool :=
  match lookup d k with Some _ => true | None => false end.

(** [d[k]] *)
Definition getitem (d : list (K * V)) (k : K) : result V :=
  match lookup d k with Some v => Ok v | None => Raise KeyError end.

(** [d[k] = v] *)
Fixpoint set (d : list (K * V)) (k : K) (v : V) : list (K * V) :=
  match d with
  | [] => [(k, v)]
  | (k', v') :: d' =>
      if decide (k = k') then (k', v) :: d' else (k', v') :: set d' k v
  end.

(** [d.setdefault(k, v)]: the value now stored at [k], and the dictionary. *)
Definition setdefault (d : list (K * V)) (k : K) (v : V)
  : V * list (K * V) :=
  match lookup d k with
  | Some x => (x, d)
  | None => (v, set d k v)
  end.

Definition keys (d : list (K * V)) : list K := map fst d.
Definition values (d : list (K * V)) : list V := map snd d.
End Ops.
End Dict.

(** A row: raw (header to cell) or normalised (canonical field to cell). *)
Abbreviation record := (list (string * value)).

(** [rec.get(k)] *)
Definition dict_get (rec : record) (k : string) : value :=
  match Dict.lookup rec k with Some v => v | None => VNone end.

(** [t[i]] on a tuple *)
Definition tuple_index {A : Type} (t : list A) (i : nat) : result A :=
  match nth_error t i with Some x => Ok x | None => Raise IndexError end.

(** ** Reading a spreadsheet *)

(** One iteration of [for row in rows_iter] in [read_table]: the record built
    from [zip(headers, row)], leaving out the columns without a header. *)
Definition xlsx_row (headers : list string) (row : list value) : record :=
  fold_left
    (fun rec hv => if String.eqb (fst hv) "" then rec
                   else Dict.set rec (fst hv) (snd hv))
    (List.combine headers row) [].

(** [any(v is not None and str(v).strip() != "" for v in rec.values())] *)
Definition row_has_data (rec : record) : bool :=
  existsb (fun v => negb (is_none v)
                    && negb (String.eqb (PyStr.strip (py_str v)) ""))
          (Dict.values rec).

(** The spreadsheet branch of [read_table], from the rows that
    [ws.iter_rows(values_only=True)] yields. *)
Definition read_table_xlsx (rows_iter : list (list value)) : list record :=
  match rows_iter with
  | [] => []
  | headers :: rows =>
      let headers :=
        map (fun h => if is_none h then "" else py_str h) headers in
      List.filter row_has_data (map (xlsx_row headers) rows)
  end.

(** ** The record normaliser *)

(** The body of [for k, v in rec.items()] in [normalize_records]; the state
    is the pair of [out] and [col_map]. *)
Definition normalize_cell (st : record * list (string * string))
  (kv : string * value) : result (record * list (string * string)) :=
  let '(out, col_map) := st in
  let '(k, v) := kv in
  let col_map :=
    if negb (Dict.contains col_map k) then Dict.set col_map k (_map_column k)
    else col_map in
  c <- Dict.getitem col_map k ;;
  Ok (Dict.set out c v, col_map).

(** The body of [for rec in records]; the state is the pair of [normalized]
    and [col_map]. *)
Definition normalize_row (st : list record * list (string * string))
  (rec : record) : result (list record * list (string * string)) :=
  let '(normalized, col_map) := st in
  st' <- foldM normalize_cell rec ([], col_map) ;;
  Ok (normalized ++ [fst st'], snd st').

Definition normalize_records (records : list record)
  : result (list record * list (string * string)) :=
  foldM normalize_row records ([], []).

(** ** Key inference *)

(** [cols], after [for rec in frame: cols.update(rec.keys())]. *)
Definition frame_cols (frame : list record) : gset string :=
  fold_left (fun cols rec => cols ∪ list_to_set (Dict.keys rec)) frame ∅.

(** The inner [for frame in frames_list] loop: the final value of [ok]. *)
Fixpoint frames_ok (keys : list string) (frames_list : list (list record))
  : bool :=
  match frames_list with
  | [] => true
  | frame :: rest =>
      if negb (forallb (fun k => bool_decide (k ∈ frame_cols frame)) keys)
      then false
      else frames_ok keys rest
  end.

Fixpoint infer_key_columns (frames : list (list record))
  (key_options : list (list string)) : option (list string) :=
  match key_options with
  | [] => None
  | keys :: rest =>
      if frames_ok keys frames then Some keys
      else infer_key_columns frames rest
  end.

(** ** The merge engine *)

(** The loop of [_compose_key]; [values] is the list built so far. *)
Fixpoint _compose_key_loop (rec : record) (keys : list string)
  (values : list string) : option (list string) :=
  match keys with
  | [] => Some values
  | k :: keys' =>
      let v := dict_get rec k in
      if is_none v then None
      else
        let s := PyStr.strip (py_str v) in
        if String.eqb s "" then None
        else _compose_key_loop rec keys' (values ++ [s])
  end.

Definition _compose_key (rec : record) (keys : list string)
  : option (list string) :=
  _compose_key_loop rec keys [].

(** [for i, key_name in enumerate(keys): target.setdefault(key_name, k[i])],
    from index [i] on. *)
Fixpoint set_key_fields (i : nat) (keys : list string) (k : list string)
  (target : record) : result record :=
  match keys with
  | [] => Ok target
  | key_name :: keys' =>
      ki <- tuple_index k i ;;
      set_key_fields (S i) keys' k
        (snd (Dict.setdefault target key_name (VStr ki)))
  end.

(** The body of [for col, val in rec.items()] in [combine_records]. *)
Definition merge_field (target : record) (cv : string * value)
  : result record :=
  let '(col, val) := cv in
  if is_none val || String.eqb (PyStr.strip (py_str val)) "" then Ok target
  else
    empty <-
      (if negb (Dict.contains target col) then Ok true
       else
         cur <- Dict.getitem target col ;;
         Ok (is_none cur || String.eqb (PyStr.strip (py_str cur)) "")) ;;
    if (empty : bool) then Ok (Dict.set target col val) else Ok target.

(** The body of [for rec in frame].  [target] aliases the entry of
    [combined_map] at [k]: the updates made through it are stored back at
    that key, which keeps its place in the dictionary. *)
Definition merge_record (keys : list string)
  (combined_map : list (list string * record)) (rec : record)
  : result (list (list string * record)) :=
  match _compose_key rec keys with
  | None => Ok combined_map
  | Some k =>
      let '(target, combined_map) := Dict.setdefault combined_map k [] in
      target <- set_key_fields 0 keys k target ;;
      target <- foldM merge_field rec target ;;
      Ok (Dict.set combined_map k target)
  end.

Definition combine_map (frames : list (list record)) (keys : list string)
  (combined_map : list (list string * record))
  : result (list (list string * record)) :=
  foldM (fun m frame => foldM (merge_record keys) frame m) frames combined_map.

Definition combine_records (frames : list (list record)) (keys : list string)
  : result (list record) :=
  combined_map <- combine_map frames keys [] ;;
  Ok (Dict.values combined_map).

(** ** Derivation (the [combine] view) *)

Definition key_options : list (list string) :=
  [ ["organisation_id"]; ["customer"; "name"] ].

Definition display_fields : list string :=
  [ "organisation_id"; "customer"; "name"; "product_status";
    "engagement_status"; "carbon_factor"; "next_activity_due_date" ].

(** [for field in display_fields: rec.setdefault(field, None)] *)
Definition complete_fields (rec : record) : record :=
  fold_left (fun r field => snd (Dict.setdefault r field VNone))
            display_fields rec.

(** [rec["has_next_activity_due"] = bool(nad not in (None, ""))] *)
Definition derive_due (rec : record) : record :=
  let nad := dict_get rec "next_activity_due_date" in
  Dict.set rec "has_next_activity_due"
    (VBool (negb (py_in nad [VNone; VStr ""]))).

(** What the [combine] view stores in [store["combined"]]; [None] when it
    redirects without storing (no frames, or no usable key). *)
Definition combine (frames : list (list record))
  : result (option (list record)) :=
  match frames with
  | [] => Ok None
  | _ =>
      match infer_key_columns frames key_options with
      | None | Some [] => Ok None
      | Some keys =>
          combined_records <- combine_records frames keys ;;
          Ok (Some (map derive_due (map complete_fields combined_records)))
      end
  end.

(** ** Aggregation (the [dashboard] view) *)

(** [_vc] *)
Definition _vc (records : list record) (field : string) : list (string * Z) :=
  fold_left
    (fun counts r =>
       let key := py_str (py_or (dict_get r field) (VStr "Unknown")) in
       Dict.set counts key
         (match Dict.lookup counts key with
          | Some n => n
          | None => 0%Z
          end + 1)%Z)
    records [].

(** ** Python floats

    A [float] is an IEEE 754 binary64 number.  [float(s)] is written after
    CPython: the pass that checks and removes digit-group underscores, the
    removal of surrounding white space, then either [inf], [infinity] or
    [nan] (any case, optional sign) or a decimal numeral with optional sign,
    fraction and exponent, converted with rounding to nearest, ties to
    even.  The white space of [float] is not that of [str.strip]: the
    separators 28 to 31 are removed by [str.strip] and refused by [float]. *)

Module PyFloat.
Import PrimFloat SpecFloat FloatOps.

Definition is_digit (c : ascii) : bool := PyStr.between 48 57 c.

(** The white space [float] removes around the text.  An ASCII character is
    tested with C's [isspace]: tab to carriage return, and the space.  A
    character above 127 is first replaced by a space when [str.isspace]
    accepts it, which below 256 are 133 and 160. *)
Definition isspace (c : ascii) : bool :=
  PyStr.between 9 13 c || (PyStr.code c =? 32)%N
  || (PyStr.code c =? 133)%N || (PyStr.code c =? 160)%N.

Fixpoint lstrip_l (l : list ascii) : list ascii :=
  match l with
  | [] => []
  | c :: l' => if isspace c then lstrip_l l' else l
  end.

Definition strip_l (l : list ascii) : list ascii :=
  rev (lstrip_l (rev (lstrip_l l))).

Definition digit_val (c : ascii) : Z := Z.of_N (PyStr.code c) - 48.

Definition digits_val (ds : list ascii) : Z :=
  fold_left (fun n c => 10 * n + digit_val c)%Z ds 0%Z.

(** The longest prefix of digits, and the rest. *)
Fixpoint span_digits (l : list ascii) : list ascii * list ascii :=
  match l with
  | [] => ([], [])
  | c :: l' =>
      if is_digit c
      then let '(ds, rest) := span_digits l' in (c :: ds, rest)
      else ([], l)
  end.

(** An underscore is allowed only between two digits; the result is the
    text without underscores.  [prev] is the character before [l]. *)
Fixpoint drop_underscores (prev : ascii) (l : list ascii)
  : option (list ascii) :=
  match l with
  | [] => if Ascii.eqb prev "_" then None else Some []
  | c :: l' =>
      if Ascii.eqb c "_" then
        if is_digit prev then drop_underscores c l' else None
      else if Ascii.eqb prev "_" && negb (is_digit c) then None
      else option_map (cons c) (drop_underscores c l')
  end.

(** A leading sign: whether it is [-], and the rest. *)
Definition split_sign (l : list ascii) : bool * list ascii :=
  match l with
  | c :: l' =>
      if Ascii.eqb c "-" then (true, l')
      else if Ascii.eqb c "+" then (false, l')
      else (false, l)
  | [] => (false, l)
  end.

(** The exponent part: nothing, or [e] or [E], an optional sign and at
    least one digit, up to the end of the text. *)
Definition parse_exponent (l : list ascii) : option Z :=
  match l with
  | [] => Some 0%Z
  | c :: l' =>
      if Ascii.eqb c "e" || Ascii.eqb c "E" then
        let '(neg, l'') := split_sign l' in
        match span_digits l'' with
        | ((_ :: _) as ds, []) =>
            Some (if neg then - digits_val ds else digits_val ds)%Z
        | _ => None
        end
      else None
  end.

(** The binary64 number nearest to [(-1)^neg * m * 10^e], for [0 <= m]. *)
Definition to_double (neg : bool) (m e : Z) : float :=
  SF2Prim
    match m with
    | Zpos p =>
        if (0 <=? e)%Z
        then binary_round prec emax neg (p * Z.to_pos (10 ^ e)) 0
        else SFdiv prec emax (S754_finite neg p 0)
               (S754_finite false (Z.to_pos (10 ^ (- e))) 0)
    | _ => S754_zero neg
    end.

(** A decimal numeral without its sign. *)
Definition parse_number (neg : bool) (l : list ascii) : option float :=
  let '(ipart, l1) := span_digits l in
  let '(fpart, l2) :=
    match l1 with
    | c :: l1' => if Ascii.eqb c "." then span_digits l1' else ([], l1)
    | [] => ([], l1)
    end in
  match ipart ++ fpart with
  | [] => None
  | (_ :: _) as ds =>
      match parse_exponent l2 with
      | Some e =>
          Some (to_double neg (digits_val ds) (e - Z.of_nat (length fpart)))
      | None => None
      end
  end.

Definition is_word (w : string) (l : list ascii) : bool :=
  String.eqb (string_of_list_ascii (PyStr.lower_l l)) w.

(** [float(s)]; [None] stands for [ValueError]. *)
Definition py_float (s : string) : option float :=
  match drop_underscores "000" (list_ascii_of_string s) with
  | None => None
  | Some l =>
      let '(neg, body) := split_sign (strip_l l) in
      if is_word "inf" body || is_word "infinity" body
      then Some (if neg then neg_infinity else infinity)
      else if is_word "nan" body then Some nan
      else parse_number neg body
  end.

(** [float(n)] for an [int] *)
Definition of_int (n : Z) : float :=
  SF2Prim (binary_normalize prec emax n 0 false).

(** [sum(xs)]: from the integer 0, adding from left to right (CPython from
    3.12 on also carries a compensation term, which stays zero as long as
    the partial sums are exact). *)
Definition py_sum (xs : list float) : float := fold_left add xs zero.

(** [x / n] for an [int] [n] *)
Definition truediv_int (x : float) (n : Z) : result float :=
  if (n =? 0)%Z then Raise ZeroDivisionError else Ok (div x (of_int n)).

(** [min(xs)]: the first item that no later item is less than. *)
Definition py_min (xs : list float) : result float :=
  match xs with
  | [] => Raise ValueError
  | x :: xs' =>
      Ok (fold_left (fun cur item => if ltb item cur then item else cur) xs' x)
  end.

(** [max(xs)] *)
Definition py_max (xs : list float) : result float :=
  match xs with
  | [] => Raise ValueError
  | x :: xs' =>
      Ok (fold_left (fun cur item => if ltb cur item then item else cur) xs' x)
  end.

End PyFloat.

(** [carbon_factor_stats] *)
Record stats : Type :=
  { avg : PrimFloat.float; min : PrimFloat.float; max : PrimFloat.float }.

(** [_to_float]; the [except] branch turns [ValueError] into [None]. *)
Definition _to_float (v : value) : option PrimFloat.float :=
  if is_none v || String.eqb (PyStr.strip (py_str v)) "" then None
  else
    PyFloat.py_float (PyStr.remove_commas (py_str v)).

(** [cf_values] *)
Definition cf_values (combined : list record) : list PrimFloat.float :=
  flat_map
    (fun r =>
       match _to_float (dict_get r "carbon_factor") with
       | Some x => [x]
       | None => []
       end)
    combined.

Definition carbon_factor_stats (combined : list record) : result stats :=
  let cf_values := cf_values combined in
  a <- (match cf_values with
        | [] => Ok PrimFloat.zero
        | _ => PyFloat.truediv_int (PyFloat.py_sum cf_values)
                 (Z.of_nat (length cf_values))
        end) ;;
  lo <- (match cf_values with
         | [] => Ok PrimFloat.zero
         | _ => PyFloat.py_min cf_values
         end) ;;
  hi <- (match cf_values with
         | [] => Ok PrimFloat.zero
         | _ => PyFloat.py_max cf_values
         end) ;;
  Ok {| avg := a; min := lo; max := hi |}.

(** ** Shapes used in the statements *)

(** The bucket a record is counted under in [_vc]. *)
Definition bucket (field : string) (r : record) : string :=
  py_str (py_or (dict_get r field) (VStr "Unknown")).

(** The distinct items of a list, in order of first occurrence. *)
Definition first_seen (l : list string) : list string :=
  fold_left (fun acc x => if bool_decide (x ∈ acc) then acc else acc ++ [x])
            l [].

Definition occurrences (x : string) (l : list string) : nat :=
  length (List.filter (String.eqb x) l).



(** The characters of a signed decimal numeral. *)
Definition numchar (c : ascii) : bool :=
  PyFloat.is_digit c || Ascii.eqb c "." || Ascii.eqb c "+" || Ascii.eqb c "-".

(** A canonicalised header: only [a-z0-9] and single spaces.  [after_space]
    says that the character before the list is a space. *)
Fixpoint tidy (after_space : bool) (l : list ascii) : Prop :=
  match l with
  | [] => True
  | c :: l' =>
      if PyStr.is_az09 c then tidy false l'
      else c = " "%char /\ after_space = false /\ tidy true l'
  end.

(** No whitespace at the front. *)
Definition head_ok (l : list ascii) : Prop :=
  match l with
  | [] => True
  | c :: _ => PyStr.isspace c = false
  end.

(** The record one row normalises to: every cell stored under the canonical
    name of its header, in header order (the header cache left out). *)
Definition store_cell (out : record) (kv : string * value) : record :=
  Dict.set out (_map_column (fst kv)) (snd kv).

Definition normalized_row (rec : record) : record :=
  fold_left store_cell rec [].

(** The header cache only ever holds [_map_column]'s answers. *)
Definition col_map_ok (col_map : list (string * string)) : Prop :=
  forall k c, Dict.lookup col_map k = Some c -> c = _map_column k.

(** A candidate key is accepted when each of its fields is a field name of
    some row of every table. *)
Definition accepted (frames : list (list record)) (keys : list string) : Prop :=
  forall frame, frame ∈ frames ->
  forall k, k ∈ keys -> exists rec, rec ∈ frame /\ k ∈ Dict.keys rec.

(** *** The merge pass, read as a function

    [combine_records] never raises; what it computes is described by the
    following functions, which the monadic code is proved equal to. *)

(** One component of the composite key: the stringified, trimmed value of a
    key field. *)
Definition key_part (rec : record) (key_name : string) : string :=
  PyStr.strip (py_str (dict_get rec key_name)).

(** The record has a composite key: no key field is absent, null or blank. *)
Definition keyable (keys : list string) (rec : record) : bool :=
  forallb (fun key_name => negb (is_blank (dict_get rec key_name))) keys.

Definition fill_key (rec : record) (target : record) (key_name : string)
  : record :=
  snd (Dict.setdefault target key_name (VStr (key_part rec key_name))).

Definition fill_field (target : record) (cv : string * value) : record :=
  if is_blank (snd cv) then target
  else if is_blank (dict_get target (fst cv))
       then Dict.set target (fst cv) (snd cv)
       else target.

Definition merged_target (keys : list string) (rec : record) (target : record)
  : record :=
  fold_left fill_field rec (fold_left (fill_key rec) keys target).

Definition merge_step (keys : list string)
  (combined_map : list (list string * record)) (rec : record)
  : list (list string * record) :=
  if keyable keys rec then
    let k := map (key_part rec) keys in
    Dict.set combined_map k
      (merged_target keys rec
         (match Dict.lookup combined_map k with Some t => t | None => [] end))
  else combined_map.

(** The value of field [col] in the merged record of composite key [key];
    [None] when there is no such record or it has no such field. *)
Definition field_of (combined_map : list (list string * record))
  (key : list string) (col : string) : option value :=
  match Dict.lookup combined_map key with
  | Some target => Dict.lookup target col
  | None => None
  end.

(** "No value": missing, null, or blank after trimming. *)
Definition no_value (o : option value) : bool :=
  match o with
  | None => true
  | Some v => is_blank v
  end.

(** Every value stored in the record is neither null nor blank. *)
Definition all_filled (target : record) : Prop :=
  forall col v, (col, v) ∈ target -> is_blank v = false.

(** The key fields of the record hold the components of its composite key,
    as trimmed, non-empty strings. *)
Definition keys_explicit (keys : list string) (k : list string)
  (target : record) : Prop :=
  forall (i : nat) key_name,
    keys !! i = Some key_name ->
    exists s, k !! i = Some s
              /\ Dict.lookup target key_name = Some (VStr s)
              /\ s <> "" /\ PyStr.strip s = s.

Definition merged_ok (keys : list string) (entry : list string * record)
  : Prop :=
  all_filled (snd entry) /\ keys_explicit keys (fst entry) (snd entry).

(** How a merge step may change a target record, field by field: either the
    field is as before, or it had no value and now holds a value that is
    neither null nor blank and comes from the source record: a cell of it,
    or the trimmed text of one of its key fields. *)
Definition fills (keys : list string) (rec : record) (t t' : record) : Prop :=
  forall col,
    Dict.lookup t' col = Dict.lookup t col
    \/ (no_value (Dict.lookup t col) = true
        /\ exists v,
            Dict.lookup t' col = Some v
            /\ is_blank v = false
            /\ ((col, v) ∈ rec
                \/ (col ∈ keys /\ v = VStr (key_part rec col)))).


(** ** Shapes used in the further statements *)

(** The distinct items of a list, in order of first occurrence. *)
Definition distinct_in_order {A : Type} `{EqDecision A} (l : list A) : list A :=
  fold_left (fun acc x => if bool_decide (x ∈ acc) then acc else acc ++ [x])
            l [].

(** The composite key of a keyable record. *)
Definition composite_key (keys : list string) (rec : record) : list string :=
  map (key_part rec) keys.

(** The map of merged records already holds all that the record can
    contribute: the record of its composite key exists, has all the key
    fields, and has a value in every field in which the record has one. *)
Definition absorbed (keys : list string)
  (m : list (list string * record)) (rec : record) : Prop :=
  keyable keys rec = true ->
  exists t,
    Dict.lookup m (composite_key keys rec) = Some t
    /\ (forall key_name, key_name ∈ keys ->
        exists v, Dict.lookup t key_name = Some v)
    /\ (forall col v, (col, v) ∈ rec -> is_blank v = false ->
        no_value (Dict.lookup t col) = false).

(** A text made of white space only. *)
Definition all_space (s : string) : bool :=
  forallb PyStr.isspace (list_ascii_of_string s).

(** The header cache after one more header. *)
Definition cache_header (col_map : list (string * string)) (k : string)
  : list (string * string) :=
  if negb (Dict.contains col_map k) then Dict.set col_map k (_map_column k)
  else col_map.

(** The text of a header cell in [read_table]. *)
Definition header_text (h : value) : string :=
  if is_none h then "" else py_str h.

(** The body of the [for h, v in zip(headers, row)] loop of [read_table]. *)
Definition xlsx_cell (rec : record) (hv : string * value) : record :=
  if String.eqb (fst hv) "" then rec else Dict.set rec (fst hv) (snd hv).

(** ** The date parser

    [dateutil]'s parser is outside the program: it is taken as it comes,
    [dateparser_parse dayfirst text] standing for
    [dateparser.parse(text, dayfirst=...)] (with [None] when the argument is
    left out), which returns a date and time or raises, and [isoformat] for
    [.date().isoformat()]. *)

Section ParseDate.
Variable datetime : Type.
Variable dateparser_parse : option bool -> string -> result datetime.
Variable isoformat : datetime -> string.

(** [parse_date]; a [bool] is an [int] for [isinstance]. *)
Definition parse_date (value : value) : option string :=
  match value with
  | VNone => None
  | VBool _ | VInt _ =>
      match dateparser_parse None (py_str value) with
      | Ok dt => Some (isoformat dt)
      | Raise _ => None
      end
  | VStr text =>
      let s := PyStr.strip text in
      if String.eqb s "" then None
      else
        match dateparser_parse (Some false) s with
        | Ok dt => Some (isoformat dt)
        | Raise _ => None
        end
  end.
End ParseDate.

(** ** Sorted field names

    [sorted({...})] on a set of strings: the strings in strictly increasing
    order, each once.  Strings compare by code point. *)

Definition str_lt (a b : string) : Prop :=
  OrdersEx.String_as_OT.compare a b = Lt.

Fixpoint insert_sorted (x : string) (l : list string) : list string :=
  match l with
  | [] => [x]
  | y :: l' =>
      match OrdersEx.String_as_OT.compare x y with
      | Lt => x :: l
      | Eq => l
      | Gt => y :: insert_sorted x l'
      end
  end.

Definition sorted_set (l : list string) : list string :=
  fold_right insert_sorted [] l.

(** ** The session store and the views *)

Module Store.

(** One entry of [store["meta"]]. *)
Record meta_entry : Type :=
  { original_name : string;
    stored_as : string;
    columns : list string;
    col_map : list (string * string) }.

(** The dictionary kept for one session. *)
Record t : Type :=
  { frames : list (list record);
    combined : option (list record);
    meta : list meta_entry }.

(** [{"frames": [], "combined": None, "meta": []}] *)
Definition empty : t := {| frames := []; combined := None; meta := [] |}.

End Store.

(** [_get_session_id]; [uuid_hex] is the [uuid.uuid4().hex] that is drawn
    when the session has no id. *)
Definition _get_session_id (session : list (string * string))
  (uuid_hex : string) : string * list (string * string) :=
  match Dict.lookup session "sid" with
  | Some sid =>
      if String.eqb sid "" then (uuid_hex, Dict.set session "sid" uuid_hex)
      else (sid, session)
  | None => (uuid_hex, Dict.set session "sid" uuid_hex)
  end.

(** [_get_store]: the session id, its store, the session and
    [IN_MEMORY_STORE] afterwards. *)
Definition _get_store (session : list (string * string)) (uuid_hex : string)
  (IN_MEMORY_STORE : list (string * Store.t))
  : string * Store.t * list (string * string) * list (string * Store.t) :=
  let '(sid, session) := _get_session_id session uuid_hex in
  let '(store, IN_MEMORY_STORE) :=
    Dict.setdefault IN_MEMORY_STORE sid Store.empty in
  (sid, store, session, IN_MEMORY_STORE).

(** The messages the views flash. *)
Inductive flash : Type :=
| SelectFile                      (* warning *)
| ReadFailed (original_name : string)  (* danger *)
| Uploaded                        (* success *)
| UploadFirst                     (* warning *)
| NoKeys                          (* danger *)
| CombinedOn (n_files : nat) (keys : list string)  (* success *)
| NoCombinedData                  (* info *)
| NothingToExport.                (* warning *)

(** The context of [dashboard.html]. *)
Record dashboard_page : Type :=
  { total_contractors : Z;
    engagement_breakdown : list (string * Z);
    product_breakdown : list (string * Z);
    page_stats : stats;
    due_soon_count : Z;
    table : list record }.

Inductive response : Type :=
| Redirect (endpoint : string)
| RenderIndex (frames_meta : list Store.meta_entry) (has_combined : bool)
| RenderDashboard (page : dashboard_page)
| CsvRows (headers : list string) (rows : list record)
| XlsxRows (sheet : list (list value))
| ServerError (status : Z).

(** What a view leaves behind: the session, [IN_MEMORY_STORE], the flashed
    messages and the response. *)
Definition outcome : Type :=
  list (string * string) * list (string * Store.t) * list flash * response.

(** An uploaded file: its name, the name it is saved under, and what
    [read_table] returns or raises on the saved file. *)
Record upload_file : Type :=
  { filename : string;
    saved_name : string;
    table_read : result (list record) }.

(** The body of [for f in files] in [upload]; the state is the store and
    the messages flashed so far. *)
Definition upload_one (st : Store.t * list flash) (f : upload_file)
  : result (Store.t * list flash) :=
  let '(store, flashes) := st in
  if String.eqb (filename f) "" then Ok (store, flashes)
  else
    match table_read f with
    | Raise _ => Ok (store, flashes ++ [ReadFailed (filename f)])
    | Ok records =>
        nc <- normalize_records records ;;
        let '(normalized, col_map) := nc in
        let all_cols := sorted_set (concat (map Dict.keys normalized)) in
        Ok ({| Store.frames := Store.frames store ++ [normalized];
               Store.combined := Store.combined store;
               Store.meta :=
                 Store.meta store
                 ++ [ {| Store.original_name := filename f;
                         Store.stored_as := saved_name f;
                         Store.columns := all_cols;
                         Store.col_map := col_map |} ] |},
            flashes)
    end.

(** The [upload] view. *)
Definition upload (files : list upload_file)
  (session : list (string * string)) (uuid_hex : string)
  (IN_MEMORY_STORE : list (string * Store.t)) : result outcome :=
  match files with
  | [] => Ok (session, IN_MEMORY_STORE, [SelectFile], Redirect "main.index")
  | _ =>
      let '(sid, store, session, IN_MEMORY_STORE) :=
        _get_store session uuid_hex IN_MEMORY_STORE in
      st <- foldM upload_one files (store, []) ;;
      Ok (session, Dict.set IN_MEMORY_STORE sid (fst st),
          snd st ++ [Uploaded], Redirect "main.index")
  end.

(** The [combine] view, with the store it writes to. *)
Definition combine_view (session : list (string * string)) (uuid_hex : string)
  (IN_MEMORY_STORE : list (string * Store.t)) : result outcome :=
  let '(sid, store, session, IN_MEMORY_STORE) :=
    _get_store session uuid_hex IN_MEMORY_STORE in
  let frames := Store.frames store in
  match frames with
  | [] => Ok (session, IN_MEMORY_STORE, [UploadFirst], Redirect "main.index")
  | _ =>
      match infer_key_columns frames key_options with
      | None | Some [] =>
          Ok (session, IN_MEMORY_STORE, [NoKeys], Redirect "main.index")
      | Some keys =>
          combined_records <- combine_records frames keys ;;
          let combined_records :=
            map derive_due (map complete_fields combined_records) in
          Ok (session,
              Dict.set IN_MEMORY_STORE sid
                {| Store.frames := Store.frames store;
                   Store.combined := Some combined_records;
                   Store.meta := Store.meta store |},
              [CombinedOn (length frames) keys], Redirect "main.dashboard")
      end
  end.

(** [sum(1 for r in combined if r.get("has_next_activity_due"))] *)
Definition count_due (combined : list record) : Z :=
  fold_left
    (fun n r => if py_truthy (dict_get r "has_next_activity_due")
                then (n + 1)%Z else n)
    combined 0%Z.

(** [sample_rows] *)
Definition sample_rows (combined : list record) : list record :=
  map (fun r =>
         [ ("organisation_id", dict_get r "organisation_id");
           ("customer", dict_get r "customer");
           ("name", dict_get r "name");
           ("product_status", dict_get r "product_status");
           ("engagement_status", dict_get r "engagement_status");
           ("carbon_factor", dict_get r "carbon_factor");
           ("next_activity_due_date", dict_get r "next_activity_due_date") ])
      (firstn 200 combined).

(** The [dashboard] view. *)
Definition dashboard (session : list (string * string)) (uuid_hex : string)
  (IN_MEMORY_STORE : list (string * Store.t)) : result outcome :=
  let '(sid, store, session, IN_MEMORY_STORE) :=
    _get_store session uuid_hex IN_MEMORY_STORE in
  match Store.combined store with
  | None | Some [] =>
      Ok (session, IN_MEMORY_STORE, [NoCombinedData], Redirect "main.index")
  | Some combined =>
      carbon <- carbon_factor_stats combined ;;
      Ok (session, IN_MEMORY_STORE, [],
          RenderDashboard
            {| total_contractors := Z.of_nat (length combined);
               engagement_breakdown := _vc combined "engagement_status";
               product_breakdown := _vc combined "product_status";
               page_stats := carbon;
               due_soon_count := count_due combined;
               table := sample_rows combined |})
  end.

(** [sorted({k for r in combined for k in r.keys()})] *)
Definition export_headers (combined : list record) : list string :=
  sorted_set (concat (map Dict.keys combined)).

(** [{k: row.get(k) for k in headers}], for every row *)
Definition csv_rows (headers : list string) (combined : list record)
  : list record :=
  map (fun row => map (fun k => (k, dict_get row k)) headers) combined.

(** The rows appended to the sheet: the headers, then
    [[row.get(h) for h in headers]] for every row. *)
Definition xlsx_sheet (headers : list string) (combined : list record)
  : list (list value) :=
  map VStr headers
  :: map (fun row => map (fun h => dict_get row h) headers) combined.

(** The [export_csv] view, up to the rows handed to the CSV writer. *)
Definition export_csv (session : list (string * string)) (uuid_hex : string)
  (IN_MEMORY_STORE : list (string * Store.t)) : outcome :=
  let '(sid, store, session, IN_MEMORY_STORE) :=
    _get_store session uuid_hex IN_MEMORY_STORE in
  match Store.combined store with
  | None | Some [] =>
      (session, IN_MEMORY_STORE, [NothingToExport], Redirect "main.index")
  | Some combined =>
      let headers := export_headers combined in
      (session, IN_MEMORY_STORE, [],
       CsvRows headers (csv_rows headers combined))
  end.

(** The [export_xlsx] view, up to the rows appended to the sheet.  What
    openpyxl makes of these rows is taken as given: [workbook_saved] returns
    the bytes of the saved workbook, or [None] when an append or the save
    raises, which the [except] branch answers with status 500. *)
Definition export_xlsx (workbook_saved : list (list value) -> option string)
  (session : list (string * string)) (uuid_hex : string)
  (IN_MEMORY_STORE : list (string * Store.t)) : outcome :=
  let '(sid, store, session, IN_MEMORY_STORE) :=
    _get_store session uuid_hex IN_MEMORY_STORE in
  match Store.combined store with
  | None | Some [] =>
      (session, IN_MEMORY_STORE, [NothingToExport], Redirect "main.index")
  | Some combined =>
      let headers := export_headers combined in
      let sheet := xlsx_sheet headers combined in
      match workbook_saved sheet with
      | Some _ => (session, IN_MEMORY_STORE, [], XlsxRows sheet)
      | None => (session, IN_MEMORY_STORE, [], ServerError 500)
      end
  end.

(** The [index] view. *)
Definition index (session : list (string * string)) (uuid_hex : string)
  (IN_MEMORY_STORE : list (string * Store.t)) : outcome :=
  let '(sid, store, session, IN_MEMORY_STORE) :=
    _get_store session uuid_hex IN_MEMORY_STORE in
  (session, IN_MEMORY_STORE, [],
   RenderIndex (Store.meta store)
     (match Store.combined store with Some _ => true | None => false end)).

(** The files of an upload that have a name and can be read, each with the
    rows read from it. *)
Definition readable (files : list upload_file)
  : list (upload_file * list record) :=
  flat_map
    (fun f =>
       if String.eqb (filename f) "" then []
       else match table_read f with
            | Ok records => [(f, records)]
            | Raise _ => []
            end)
    files.

(** The names of the files of an upload that have a name and cannot be
    read. *)
Definition unreadable (files : list upload_file) : list string :=
  flat_map
    (fun f =>
       if String.eqb (filename f) "" then []
       else match table_read f with
            | Ok _ => []
            | Raise _ => [filename f]
            end)
    files.

(** The entry of [store["meta"]] for a file and the rows read from it. *)
Definition meta_of (fr : upload_file * list record) : Store.meta_entry :=
  {| Store.original_name := filename (fst fr);
     Store.stored_as := saved_name (fst fr);
     Store.columns :=
       sorted_set (concat (map Dict.keys (map normalized_row (snd fr))));
     Store.col_map :=
       fold_left cache_header (concat (map Dict.keys (snd fr))) [] |}.

(** [IN_MEMORY_STORE] after a view. *)
Definition stores_of (o : outcome) : list (string * Store.t) :=
  snd (fst (fst o)).

(** The session id a request runs under. *)
Definition session_sid (session : list (string * string)) (uuid_hex : string)
  : string :=
  fst (_get_session_id session uuid_hex).

(** The store of a session id; the empty store when it has none yet. *)
Definition store_at (IN_MEMORY_STORE : list (string * Store.t)) (sid : string)
  : Store.t :=
  match Dict.lookup IN_MEMORY_STORE sid with
  | Some store => store
  | None => Store.empty
  end.

(** The total of a breakdown. *)
Definition sum_counts (counts : list (string * Z)) : Z :=
  fold_right (fun kv total => (snd kv + total)%Z) 0%Z counts.

(** The response of a view. *)
Definition response_of (o : outcome) : response := snd o.

(** * Properties *)

(** ** Strings *)

Module PyStrFacts.
Import PyStr.

Lemma az09_not_space c : is_az09 c = true -> isspace c = false.
Proof. destruct c as [[] [] [] [] [] [] [] []]; vm_compute; congruence. Qed.

Lemma az09_lower c : is_az09 c = true -> lower_char c = c.
Proof. destruct c as [[] [] [] [] [] [] [] []]; vm_compute; congruence. Qed.

Lemma head_ok_lstrip l : head_ok (lstrip_l l).
Proof.
  induction l as [|c l IH]; simpl; [exact I|].
  destruct (isspace c) eqn:E; [exact IH | exact E].
Qed.

Lemma lstrip_head_ok l : head_ok l -> lstrip_l l = l.
Proof. destruct l as [|c l]; simpl; [reflexivity|]. intros ->. reflexivity. Qed.

Lemma lstrip_app_char a c :
  lstrip_l (a ++ [c]) =
  match lstrip_l a with
  | [] => if isspace c then [] else [c]
  | r => r ++ [c]
  end.
Proof.
  induction a as [|x a IH]; simpl; [reflexivity|].
  destruct (isspace x); [exact IH | reflexivity].
Qed.

(** [rstrip] read from the front of the string. *)
Lemma rstrip_cons c l :
  rstrip_l (c :: l) =
  match rstrip_l l with
  | [] => if isspace c then [] else [c]
  | r => c :: r
  end.
Proof.
  unfold rstrip_l. simpl rev at 2. rewrite lstrip_app_char.
  destruct (lstrip_l (rev l)) as [|y r] eqn:E; simpl.
  - destruct (isspace c); reflexivity.
  - rewrite rev_app_distr. simpl.
    destruct (rev r ++ [y]) eqn:E'; [|reflexivity].
    destruct (rev r); discriminate.
Qed.

Lemma head_ok_rstrip l : head_ok l -> head_ok (rstrip_l l).
Proof.
  destruct l as [|c l]; [intros _; exact I|].
  simpl. intros Hc. rewrite rstrip_cons, Hc.
  destruct (rstrip_l l); exact Hc.
Qed.

Lemma lstrip_idem l : lstrip_l (lstrip_l l) = lstrip_l l.
Proof. apply lstrip_head_ok, head_ok_lstrip. Qed.

Lemma rstrip_idem l : rstrip_l (rstrip_l l) = rstrip_l l.
Proof. unfold rstrip_l. rewrite rev_involutive, lstrip_idem. reflexivity. Qed.

Lemma strip_l_idem l : strip_l (strip_l l) = strip_l l.
Proof.
  unfold strip_l.
  rewrite (lstrip_head_ok (rstrip_l (lstrip_l l))).
  - apply rstrip_idem.
  - apply head_ok_rstrip, head_ok_lstrip.
Qed.

Lemma strip_idem s : strip (strip s) = strip s.
Proof.
  unfold strip. rewrite list_ascii_of_string_of_list_ascii, strip_l_idem.
  reflexivity.
Qed.

Lemma tidy_weaken b l : tidy b l -> tidy false l.
Proof.
  destruct l as [|c l]; simpl; [trivial|].
  destruct (is_az09 c); [trivial|]. intros (-> & _ & H). auto.
Qed.

Lemma tidy_lstrip b l : tidy b l -> tidy false (lstrip_l l).
Proof.
  revert b. induction l as [|c l IH]; intros b H; simpl; [exact I|].
  destruct (isspace c) eqn:E.
  - simpl in H. destruct (is_az09 c) eqn:A.
    + rewrite (az09_not_space _ A) in E. discriminate.
    + destruct H as (_ & _ & H). eapply IH, H.
  - eapply tidy_weaken, H.
Qed.

Lemma tidy_rstrip l : forall b, tidy b l -> tidy b (rstrip_l l).
Proof.
  induction l as [|c l IH]; intros b H; [exact I|].
  rewrite rstrip_cons. simpl in H.
  destruct (is_az09 c) eqn:A.
  - specialize (IH _ H). destruct (rstrip_l l) as [|y r].
    + rewrite (az09_not_space _ A). simpl. rewrite A. exact I.
    + simpl. rewrite A. exact IH.
  - destruct H as (-> & -> & H). specialize (IH _ H).
    destruct (rstrip_l l) as [|y r]; [exact I|].
    simpl. auto.
Qed.

Lemma tidy_strip b l : tidy b l -> tidy false (strip_l l).
Proof. intros H. apply tidy_rstrip. eapply tidy_lstrip, H. Qed.

Lemma tidy_sub_nonalnum l :
  forall b, tidy b (sub_runs (fun c => negb (is_az09 c)) b l).
Proof.
  induction l as [|c l IH]; intros b; simpl; [exact I|].
  destruct (is_az09 c) eqn:A; simpl.
  - rewrite A. apply IH.
  - destruct b; [apply IH|]. simpl. auto.
Qed.

Lemma sub_nonalnum_tidy l :
  forall b, tidy b l -> sub_runs (fun c => negb (is_az09 c)) b l = l.
Proof.
  induction l as [|c l IH]; intros b H; simpl; [reflexivity|].
  simpl in H. destruct (is_az09 c) eqn:A; simpl.
  - f_equal. apply IH, H.
  - destruct H as (-> & -> & H). f_equal. apply IH, H.
Qed.

Lemma sub_space_tidy l :
  forall b, tidy b l -> sub_runs isspace b l = l.
Proof.
  induction l as [|c l IH]; intros b H; simpl; [reflexivity|].
  simpl in H. destruct (is_az09 c) eqn:A.
  - rewrite (az09_not_space _ A). f_equal. apply IH, H.
  - destruct H as (-> & -> & H). simpl. f_equal. apply IH, H.
Qed.

Lemma lower_tidy l : forall b, tidy b l -> lower_l l = l.
Proof.
  induction l as [|c l IH]; intros b H; simpl; [reflexivity|].
  simpl in H. destruct (is_az09 c) eqn:A.
  - rewrite (az09_lower _ A). f_equal. eapply IH, H.
  - destruct H as (-> & -> & H). f_equal. eapply IH, H.
Qed.

End PyStrFacts.

(** ** The column canonicaliser *)

Lemma canonicalize_l_tidy l : tidy false (_canonicalize_l l).
Proof.
  unfold _canonicalize_l, PyStr.re_sub_class.
  eapply PyStrFacts.tidy_strip.
  rewrite PyStrFacts.sub_space_tidy; apply PyStrFacts.tidy_sub_nonalnum.
Qed.

Lemma canonicalize_l_stripped l :
  PyStr.strip_l (_canonicalize_l l) = _canonicalize_l l.
Proof. unfold _canonicalize_l. apply PyStrFacts.strip_l_idem. Qed.

Lemma canonicalize_l_idem l :
  _canonicalize_l (_canonicalize_l l) = _canonicalize_l l.
Proof.
  pose proof (canonicalize_l_tidy l) as T.
  pose proof (canonicalize_l_stripped l) as S.
  set (o := _canonicalize_l l) in *.
  unfold _canonicalize_l at 1. unfold PyStr.re_sub_class.
  rewrite S, (PyStrFacts.lower_tidy _ _ T).
  rewrite (PyStrFacts.sub_nonalnum_tidy _ _ T).
  rewrite (PyStrFacts.sub_space_tidy _ _ T). exact S.
Qed.

Lemma canonicalize_idem x : _canonicalize (_canonicalize x) = _canonicalize x.
Proof.
  unfold _canonicalize.
  rewrite list_ascii_of_string_of_list_ascii, canonicalize_l_idem.
  reflexivity.
Qed.

Lemma map_column_loop_cases table c_norm :
  _map_column_loop c_norm table = c_norm
  \/ In (_map_column_loop c_norm table) (map fst table).
Proof.
  induction table as [|[canonical aliases] table IH]; simpl;
    [left; reflexivity|].
  destruct (String.eqb c_norm canonical || existsb (String.eqb c_norm) aliases).
  - right. left. reflexivity.
  - destruct IH as [IH|IH]; [left; exact IH | right; right; exact IH].
Qed.

Lemma map_column_canonical_names :
  Forall (fun c => _map_column c = c) (map fst NORMALIZED_COLUMN_ALIASES).
Proof. repeat constructor. Qed.

(** C8. Header canonicalisation is idempotent: mapping a header that
    [_map_column] has already produced gives that header back, whether it is
    a canonical field name of the alias registry or an ad-hoc canonicalised
    header; the canonicalisation step [_canonicalize] is idempotent too. *)
Theorem map_column_idempotent :
  forall x : string,
    _map_column (_map_column x) = _map_column x
    /\ _canonicalize (_canonicalize x) = _canonicalize x.
Proof.
  intros x. split; [|apply canonicalize_idem].
  destruct (map_column_loop_cases NORMALIZED_COLUMN_ALIASES (_canonicalize x))
    as [E|E]; fold (_map_column x) in E.
  - rewrite E. unfold _map_column. rewrite canonicalize_idem. exact E.
  - pose proof map_column_canonical_names as F.
    rewrite Forall_forall in F. apply F. apply list_elem_of_In. exact E.
Qed.

(** ** Dictionaries *)

Module DictFacts.
Section Facts.
Context {K V : Type} `{EqDecision K}.
Implicit Types (d : list (K * V)) (k : K) (v : V).

Lemma lookup_set_eq d k v : Dict.lookup (Dict.set d k v) k = Some v.
Proof.
  induction d as [|[k' v'] d IH]; simpl.
  - rewrite decide_True; reflexivity.
  - destruct (decide (k = k')) as [->|Hne]; simpl.
    + rewrite decide_True; reflexivity.
    + rewrite decide_False by exact Hne. exact IH.
Qed.

Lemma lookup_set_ne d k k' v :
  k <> k' -> Dict.lookup (Dict.set d k v) k' = Dict.lookup d k'.
Proof.
  intros Hne. induction d as [|[k0 v0] d IH]; simpl.
  - rewrite decide_False by congruence. reflexivity.
  - destruct (decide (k = k0)) as [->|Hne0]; simpl.
    + rewrite !decide_False by congruence. reflexivity.
    + destruct (decide (k' = k0)); [reflexivity | exact IH].
Qed.

Lemma lookup_elem d k v : Dict.lookup d k = Some v -> (k, v) ∈ d.
Proof.
  induction d as [|[k' v'] d IH]; simpl; [discriminate|].
  destruct (decide (k = k')) as [->|Hne].
  - intros [= ->]. left.
  - intros H0. right. apply IH, H0.
Qed.

(** Assignment stores [v]; the other entries stay as they were. *)
Lemma elem_set d k v kv :
  kv ∈ Dict.set d k v -> kv = (k, v) \/ kv ∈ d.
Proof.
  induction d as [|[k' v'] d IH]; simpl.
  - intros Hin. apply list_elem_of_singleton in Hin. auto.
  - destruct (decide (k = k')) as [->|Hne]; intros Hin;
      apply elem_of_cons in Hin as [->|Hin]; auto.
    + right. right. exact Hin.
    + right. left.
    + destruct (IH Hin); auto. right. right. assumption.
Qed.

Lemma Forall_set (P : K * V -> Prop) d k v :
  Forall P d -> P (k, v) -> Forall P (Dict.set d k v).
Proof.
  intros Hd Hkv. apply Forall_forall. intros kv Hin.
  apply elem_set in Hin as [->|Hin]; [exact Hkv|].
  rewrite Forall_forall in Hd. auto.
Qed.

Lemma values_set_subset d k v x :
  x ∈ Dict.values (Dict.set d k v) -> x = v \/ x ∈ Dict.values d.
Proof.
  unfold Dict.values. intros Hin.
  apply list_elem_of_fmap in Hin as ([k0 v0] & -> & Hin).
  apply elem_set in Hin as [[= -> ->]|Hin]; [left; reflexivity|].
  right. apply list_elem_of_fmap. exists (k0, v0). auto.
Qed.

Lemma contains_lookup d k :
  Dict.contains d k = true <-> exists v, Dict.lookup d k = Some v.
Proof.
  unfold Dict.contains. destruct (Dict.lookup d k); split; eauto.
  - discriminate.
  - intros [v Hv]. discriminate.
Qed.

Lemma keys_set d k v :
  Dict.keys (Dict.set d k v) =
  if Dict.contains d k then Dict.keys d else Dict.keys d ++ [k].
Proof.
  unfold Dict.contains, Dict.keys.
  induction d as [|[k' v'] d IH]; simpl; [reflexivity|].
  destruct (decide (k = k')) as [->|Hne]; simpl; [reflexivity|].
  rewrite IH. destruct (Dict.lookup d k); reflexivity.
Qed.

Lemma lookup_keys d k :
  k ∈ Dict.keys d <-> exists v, Dict.lookup d k = Some v.
Proof.
  unfold Dict.keys. induction d as [|[k' v'] d IH]; simpl.
  - split; [intros Hin; inversion Hin | intros [v Hv]; discriminate].
  - destruct (decide (k = k')) as [->|Hne].
    + split; [eauto | intros _; left].
    + rewrite elem_of_cons, IH. split; [intros [?|?]; [congruence|auto]|auto].
Qed.
End Facts.
End DictFacts.

(** ** The record normaliser *)

#[local] Arguments normalize_cell : simpl never.
#[local] Arguments normalize_row : simpl never.
#[local] Arguments merge_field : simpl never.
#[local] Arguments merge_record : simpl never.

Lemma normalize_cell_pure out col_map k v :
  col_map_ok col_map ->
  exists col_map',
    normalize_cell (out, col_map) (k, v)
      = Ok (Dict.set out (_map_column k) v, col_map')
    /\ col_map_ok col_map'.
Proof.
  intros Hok. unfold normalize_cell, Dict.getitem.
  destruct (Dict.contains col_map k) eqn:E; simpl.
  - apply DictFacts.contains_lookup in E as [c Hc].
    rewrite Hc. simpl. rewrite (Hok _ _ Hc). eauto.
  - rewrite DictFacts.lookup_set_eq. simpl. eexists; split; [reflexivity|].
    intros k' c. destruct (decide (k = k')) as [->|Hne].
    + rewrite DictFacts.lookup_set_eq. congruence.
    + rewrite DictFacts.lookup_set_ne by exact Hne. apply Hok.
Qed.

Lemma normalize_cells_pure rec : forall out col_map,
  col_map_ok col_map ->
  exists col_map',
    foldM normalize_cell rec (out, col_map)
      = Ok (fold_left store_cell rec out, col_map')
    /\ col_map_ok col_map'.
Proof.
  induction rec as [|[k v] rec IH]; intros out col_map Hok; simpl; [eauto|].
  destruct (normalize_cell_pure out col_map k v Hok) as (cm & -> & Hcm).
  simpl. apply IH, Hcm.
Qed.

Lemma normalize_rows_pure records : forall normalized col_map,
  col_map_ok col_map ->
  exists col_map',
    foldM normalize_row records (normalized, col_map)
      = Ok (normalized ++ map normalized_row records, col_map')
    /\ col_map_ok col_map'.
Proof.
  induction records as [|rec records IH]; intros normalized col_map Hok; simpl.
  - rewrite app_nil_r. eauto.
  - unfold normalize_row at 1.
    destruct (normalize_cells_pure rec [] col_map Hok) as (cm & -> & Hcm).
    fold (normalized_row rec). simpl.
    destruct (IH (normalized ++ [normalized_row rec]) cm Hcm)
      as (cm' & -> & Hcm').
    rewrite <- app_assoc. simpl. eauto.
Qed.

(** [normalize_records] returns normally, with one normalised record per
    input row, in row order. *)
Lemma normalize_records_rows records :
  exists col_map,
    normalize_records records = Ok (map normalized_row records, col_map)
    /\ col_map_ok col_map.
Proof.
  apply (normalize_rows_pure records [] []). intros k c. discriminate.
Qed.

(** Cells stored under other names leave the field [c] alone. *)
Lemma normalized_fold_other (l : record) c : forall out,
  (forall h v, (h, v) ∈ l -> _map_column h <> c) ->
  Dict.lookup (fold_left store_cell l out) c = Dict.lookup out c.
Proof.
  induction l as [|[h v] l IH]; intros out Hl; simpl; [reflexivity|].
  rewrite IH.
  - apply DictFacts.lookup_set_ne. apply (Hl h v). left.
  - intros h' v' Hin. apply (Hl h' v'). right. exact Hin.
Qed.

(** Normalising adds no data: the values of the normalised record are values
    of the row. *)
Lemma normalized_fold_values (l : record) x : forall out,
  x ∈ Dict.values (fold_left store_cell l out) ->
  x ∈ Dict.values out \/ x ∈ Dict.values l.
Proof.
  induction l as [|[h v] l IH]; intros out Hin; simpl in *; [auto|].
  apply IH in Hin as [Hin|Hin].
  - apply DictFacts.values_set_subset in Hin as [->|Hin]; [|auto].
    right. left.
  - right. right. exact Hin.
Qed.

Lemma row_has_data_elem (rec : record) :
  row_has_data rec = true <->
  exists v, v ∈ Dict.values rec /\ is_blank v = false.
Proof.
  unfold row_has_data, is_blank. rewrite existsb_exists. split.
  - intros (v & Hin & Hv). exists v. split; [apply list_elem_of_In, Hin|].
    destruct (is_none v), (String.eqb (PyStr.strip (py_str v)) "");
      simpl in *; congruence.
  - intros (v & Hin & Hv). exists v. split; [apply list_elem_of_In, Hin|].
    destruct (is_none v), (String.eqb (PyStr.strip (py_str v)) "");
      simpl in *; congruence.
Qed.

Lemma read_table_xlsx_rows_have_data rows_iter rec :
  rec ∈ read_table_xlsx rows_iter -> row_has_data rec = true.
Proof.
  destruct rows_iter as [|headers rows]; simpl; intros Hin.
  - inversion Hin.
  - apply list_elem_of_In, filter_In in Hin. apply Hin.
Qed.

(** C2, as the program has it.  [normalize_records] drops nothing: it returns
    normally with exactly one normalised record per input row, in row order,
    and a row whose values are all null or blank gives, at its place, a
    normalised record whose values are all null or blank.  Whole-row blanks
    are dropped before, by the spreadsheet branch of [read_table]: every row
    it returns has a value that is neither null nor blank. *)
Theorem normalize_records_keeps_every_row :
  forall records : list record,
    exists normalized col_map,
      normalize_records records = Ok (normalized, col_map)
      /\ length normalized = length records
      /\ (forall (i : nat) rec,
             records !! i = Some rec ->
             exists out,
               normalized !! i = Some out
               /\ out = normalized_row rec
               /\ (row_has_data rec = false -> row_has_data out = false))
      /\ (forall rows_iter rec,
             rec ∈ read_table_xlsx rows_iter -> row_has_data rec = true).
Proof.
  intros records.
  destruct (normalize_records_rows records) as (cm & H & _).
  eexists _, cm. split; [exact H|]. split; [apply length_map|]. split.
  - intros i rec Hi. exists (normalized_row rec).
    split; [rewrite list_lookup_fmap, Hi; reflexivity|].
    split; [reflexivity|]. intros Hrec.
    destruct (row_has_data (normalized_row rec)) eqn:E; [|reflexivity].
    apply row_has_data_elem in E as (v & Hin & Hv).
    apply normalized_fold_values in Hin as [Hin|Hin]; [inversion Hin|].
    rewrite <- Hrec. symmetry. apply row_has_data_elem. eauto.
  - apply read_table_xlsx_rows_have_data.
Qed.

(** C2 as stated fails: a row of blanks comes out of [normalize_records]. *)
Lemma normalize_records_blank_row_kept :
  normalize_records [[("Name", VStr ""); ("Customer", VStr "  ")]]
    = Ok ([[("name", VStr ""); ("customer", VStr "  ")]],
          [("Name", "name"); ("Customer", "customer")])
  /\ row_has_data [("name", VStr ""); ("customer", VStr "  ")] = false.
Proof. split; vm_compute; reflexivity. Qed.

(** C10. Within one row, when several headers map to the same canonical
    field, the normalised record holds under that field the value of the
    header iterated last, whatever that value is (null and blank included). *)
Theorem normalize_last_header_wins :
  forall (before after : list record) (l1 l2 l3 : record)
         (h1 h2 : string) (v1 v2 : value),
    h1 <> h2 ->
    _map_column h1 = _map_column h2 ->
    (forall h v, (h, v) ∈ l3 -> _map_column h <> _map_column h2) ->
    exists normalized col_map out,
      normalize_records
        (before ++ (l1 ++ (h1, v1) :: l2 ++ (h2, v2) :: l3) :: after)
        = Ok (normalized, col_map)
      /\ normalized !! length before = Some out
      /\ Dict.lookup out (_map_column h2) = Some v2.
Proof.
  intros before after l1 l2 l3 h1 h2 v1 v2 _ _ Hl3.
  destruct (normalize_records_rows
              (before ++ (l1 ++ (h1, v1) :: l2 ++ (h2, v2) :: l3) :: after))
    as (cm & H & _).
  eexists _, cm, _. split; [exact H|]. split.
  - rewrite map_app. simpl.
    rewrite lookup_app_r by (rewrite length_map; lia).
    rewrite length_map, Nat.sub_diag. reflexivity.
  - unfold normalized_row.
    replace (l1 ++ (h1, v1) :: l2 ++ (h2, v2) :: l3)
      with ((l1 ++ (h1, v1) :: l2) ++ (h2, v2) :: l3)
      by (rewrite <- app_assoc; reflexivity).
    rewrite fold_left_app. simpl.
    rewrite normalized_fold_other by exact Hl3.
    apply DictFacts.lookup_set_eq.
Qed.

Lemma normalize_last_header_wins_witness :
  exists normalized col_map out,
    normalize_records [[("Org ID", VStr "1"); ("org id", VStr "")]]
      = Ok (normalized, col_map)
    /\ normalized !! 0%nat = Some out
    /\ Dict.lookup out "organisation_id" = Some (VStr "").
Proof.
  apply (normalize_last_header_wins [] [] [] [] []
           "Org ID" "org id" (VStr "1") (VStr "")).
  - discriminate.
  - vm_compute. reflexivity.
  - intros h v Hin. inversion Hin.
Defined.

(** ** Key inference *)

Lemma fold_cols_spec (frame : list record) k : forall cols : gset string,
  k ∈ fold_left (fun cols rec => cols ∪ list_to_set (Dict.keys rec)) frame cols
  <-> k ∈ cols \/ exists rec, rec ∈ frame /\ k ∈ Dict.keys rec.
Proof.
  induction frame as [|rec frame IH]; intros cols; simpl.
  - split; [auto|]. intros [H|(rec & Hin & _)]; [exact H | inversion Hin].
  - rewrite IH, elem_of_union, elem_of_list_to_set. split.
    + intros [[H|H]|(r & Hr & Hk)]; [auto| |].
      * right. exists rec. split; [left | exact H].
      * right. exists r. split; [right; exact Hr | exact Hk].
    + intros [H|(r & Hr & Hk)]; [auto|].
      apply elem_of_cons in Hr as [->|Hr]; [auto|]. right. eauto.
Qed.

Lemma frame_cols_spec (frame : list record) k :
  k ∈ frame_cols frame <-> exists rec, rec ∈ frame /\ k ∈ Dict.keys rec.
Proof.
  unfold frame_cols. rewrite fold_cols_spec. split; [|auto].
  intros [H|H]; [|exact H]. apply not_elem_of_empty in H. destruct H.
Qed.

Lemma frames_ok_spec keys frames :
  frames_ok keys frames = true <-> accepted frames keys.
Proof.
  unfold accepted. induction frames as [|frame frames IH]; simpl.
  - split; [|reflexivity]. intros _ frame Hin. inversion Hin.
  - destruct (forallb _ keys) eqn:E; simpl.
    + rewrite IH. rewrite forallb_forall in E. split.
      * intros H frame' Hin k Hk.
        apply elem_of_cons in Hin as [->|Hin]; [|eauto].
        apply frame_cols_spec. eapply bool_decide_eq_true_1, E.
        apply list_elem_of_In, Hk.
      * intros H frame' Hin. apply H. right. exact Hin.
    + split; [discriminate|]. intros H.
      assert (forallb (fun k => bool_decide (k ∈ frame_cols frame)) keys = true)
        as E'; [|congruence].
      apply forallb_forall. intros k Hk. apply bool_decide_eq_true_2.
      apply frame_cols_spec. apply H; [left | apply list_elem_of_In, Hk].
Qed.

(** C4. [infer_key_columns] returns the first candidate, in the caller's
    order, all of whose fields occur among the field names of the rows of
    every table; it returns [None] exactly when no candidate is accepted. *)
Theorem infer_key_columns_first_accepted :
  forall (frames : list (list record)) (key_options : list (list string)),
    (forall keys,
        infer_key_columns frames key_options = Some keys ->
        exists before after,
          key_options = before ++ keys :: after
          /\ accepted frames keys
          /\ forall c, c ∈ before -> ~ accepted frames c)
    /\ (infer_key_columns frames key_options = None
        <-> forall c, c ∈ key_options -> ~ accepted frames c).
Proof.
  intros frames key_options.
  induction key_options as [|keys rest [IH1 IH2]]; simpl.
  - split; [discriminate|]. split; [|reflexivity]. intros _ c Hc. inversion Hc.
  - destruct (frames_ok keys frames) eqn:E.
    + apply frames_ok_spec in E. split.
      * intros found [= <-]. exists [], rest. split; [reflexivity|].
        split; [exact E|]. intros c Hc. inversion Hc.
      * split; [discriminate|]. intros H. destruct (H keys); [left | exact E].
    + assert (~ accepted frames keys) as Hno.
      { intros H. apply frames_ok_spec in H. congruence. }
      split.
      * intros found Hfound.
        destruct (IH1 found Hfound) as (before & after & -> & Hacc & Hbefore).
        exists (keys :: before), after. split; [reflexivity|].
        split; [exact Hacc|]. intros c Hc.
        apply elem_of_cons in Hc as [->|Hc]; auto.
      * rewrite IH2. split.
        -- intros H c Hc. apply elem_of_cons in Hc as [->|Hc]; auto.
        -- intros H c Hc. apply H. right. exact Hc.
Qed.

(** Priority: both candidates are present in both tables, the first wins. *)
Example infer_key_columns_priority :
  infer_key_columns
    [ [ [("organisation_id", VStr "1"); ("customer", VStr "Acme");
         ("name", VStr "Bob")] ];
      [ [("customer", VStr "Acme"); ("name", VStr "Bob")];
        [("organisation_id", VStr "1")] ] ]
    key_options
  = Some ["organisation_id"].
Proof. vm_compute. reflexivity. Qed.

(** Failure: one table only has [customer], the other only [name]. *)
Example infer_key_columns_failure :
  infer_key_columns
    [ [ [("customer", VStr "Acme")] ]; [ [("name", VStr "Bob")] ] ]
    key_options
  = None.
Proof. vm_compute. reflexivity. Qed.

(** ** The merge engine *)

(** *** The code returns normally, with the result of the pure pass *)

Lemma is_blank_get_absent (target : record) col :
  Dict.contains target col = false -> is_blank (dict_get target col) = true.
Proof.
  unfold Dict.contains, dict_get.
  destruct (Dict.lookup target col); [discriminate | reflexivity].
Qed.

Lemma compose_key_loop_spec rec keys : forall values,
  _compose_key_loop rec keys values =
  if keyable keys rec then Some (values ++ map (key_part rec) keys) else None.
Proof.
  induction keys as [|key_name keys IH]; intros values; simpl.
  - rewrite app_nil_r. reflexivity.
  - unfold is_blank at 1. fold (key_part rec key_name).
    destruct (is_none (dict_get rec key_name)); simpl; [reflexivity|].
    destruct (String.eqb (key_part rec key_name) ""); simpl; [reflexivity|].
    rewrite IH, <- app_assoc. reflexivity.
Qed.

Lemma compose_key_spec rec keys :
  _compose_key rec keys =
  if keyable keys rec then Some (map (key_part rec) keys) else None.
Proof. apply compose_key_loop_spec. Qed.

Lemma set_key_fields_pure (rec : record) keys : forall prefix target,
  set_key_fields (length prefix) keys
    (map (key_part rec) (prefix ++ keys)) target
  = Ok (fold_left (fill_key rec) keys target).
Proof.
  induction keys as [|key_name keys IH]; intros prefix target; simpl;
    [reflexivity|].
  assert (tuple_index (map (key_part rec) (prefix ++ key_name :: keys))
            (length prefix) = Ok (key_part rec key_name)) as ->.
  { unfold tuple_index. rewrite nth_error_map, nth_error_app2 by lia.
    rewrite Nat.sub_diag. reflexivity. }
  simpl. specialize (IH (prefix ++ [key_name])).
  rewrite length_app, <- app_assoc, Nat.add_1_r in IH. apply IH.
Qed.

Lemma merge_field_pure target cv :
  merge_field target cv = Ok (fill_field target cv).
Proof.
  destruct cv as [col val]. unfold merge_field, fill_field. simpl.
  fold (is_blank val). destruct (is_blank val); [reflexivity|].
  destruct (Dict.contains target col) eqn:E; simpl.
  - apply DictFacts.contains_lookup in E as [cur Hcur].
    unfold Dict.getitem, dict_get. rewrite Hcur. simpl.
    fold (is_blank cur). destruct (is_blank cur); reflexivity.
  - rewrite (is_blank_get_absent _ _ E). reflexivity.
Qed.

Lemma merge_fields_pure (rec : list (string * value)) : forall target,
  foldM merge_field rec target = Ok (fold_left fill_field rec target).
Proof.
  induction rec as [|cv rec IH]; intros target; simpl; [reflexivity|].
  rewrite merge_field_pure. simpl. apply IH.
Qed.

Lemma dict_set_set {K V} `{EqDecision K} (d : list (K * V)) k v w :
  Dict.set (Dict.set d k v) k w = Dict.set d k w.
Proof.
  induction d as [|[k' v'] d IH]; simpl.
  - rewrite decide_True; reflexivity.
  - destruct (decide (k = k')) as [->|Hne]; simpl.
    + rewrite decide_True; reflexivity.
    + rewrite decide_False by exact Hne. f_equal. exact IH.
Qed.

Lemma merge_record_pure keys combined_map rec :
  merge_record keys combined_map rec = Ok (merge_step keys combined_map rec).
Proof.
  unfold merge_record, merge_step. rewrite compose_key_spec.
  destruct (keyable keys rec); [|reflexivity].
  unfold Dict.setdefault.
  pose proof (set_key_fields_pure rec keys []) as Hk. simpl in Hk.
  destruct (Dict.lookup combined_map (map (key_part rec) keys)) as [t|];
    rewrite Hk; simpl; rewrite merge_fields_pure; simpl; [reflexivity|].
  rewrite dict_set_set. reflexivity.
Qed.

Lemma merge_records_pure keys (recs : list record) : forall m,
  foldM (merge_record keys) recs m = Ok (fold_left (merge_step keys) recs m).
Proof.
  induction recs as [|rec recs IH]; intros m; simpl; [reflexivity|].
  rewrite merge_record_pure. simpl. apply IH.
Qed.

Lemma combine_map_pure (frames : list (list record)) keys : forall m,
  combine_map frames keys m
  = Ok (fold_left (merge_step keys) (concat frames) m).
Proof.
  unfold combine_map.
  induction frames as [|frame frames IH]; intros m; simpl; [reflexivity|].
  rewrite merge_records_pure. simpl. rewrite IH, fold_left_app. reflexivity.
Qed.

Lemma combine_records_pure (frames : list (list record)) keys :
  combine_records frames keys
  = Ok (Dict.values (fold_left (merge_step keys) (concat frames) [])).
Proof. unfold combine_records. rewrite combine_map_pure. reflexivity. Qed.

(** *** What one merge step does to a target record *)

Lemma no_value_get (t : record) col :
  no_value (Dict.lookup t col) = is_blank (dict_get t col).
Proof. unfold dict_get. destruct (Dict.lookup t col); reflexivity. Qed.

Lemma key_part_filled keys (rec : record) key_name :
  keyable keys rec = true -> key_name ∈ keys ->
  key_part rec key_name <> ""
  /\ PyStr.strip (key_part rec key_name) = key_part rec key_name
  /\ is_blank (VStr (key_part rec key_name)) = false.
Proof.
  intros Hk Hin. unfold keyable in Hk. rewrite forallb_forall in Hk.
  specialize (Hk key_name (proj1 (list_elem_of_In _ _) Hin)).
  apply negb_true_iff in Hk. unfold is_blank in Hk.
  apply orb_false_iff in Hk as [_ Hk]. fold (key_part rec key_name) in Hk.
  apply String.eqb_neq in Hk.
  assert (PyStr.strip (key_part rec key_name) = key_part rec key_name) as Hs
    by apply PyStrFacts.strip_idem.
  split; [exact Hk|]. split; [exact Hs|].
  unfold is_blank. simpl. rewrite Hs. apply String.eqb_neq, Hk.
Qed.

Lemma lookup_fill_key (rec t : record) key_name col :
  Dict.lookup (fill_key rec t key_name) col =
  match Dict.lookup t col with
  | Some v => Some v
  | None => if decide (col = key_name)
            then Some (VStr (key_part rec key_name)) else None
  end.
Proof.
  unfold fill_key, Dict.setdefault.
  destruct (Dict.lookup t key_name) eqn:E; simpl.
  - destruct (Dict.lookup t col) eqn:E2; [reflexivity|].
    destruct (decide (col = key_name)) as [->|]; congruence.
  - destruct (decide (col = key_name)) as [->|Hne].
    + rewrite DictFacts.lookup_set_eq, E. reflexivity.
    + rewrite DictFacts.lookup_set_ne by congruence.
      destruct (Dict.lookup t col); reflexivity.
Qed.

Lemma lookup_fill_keys (rec : record) keys col : forall t : record,
  Dict.lookup (fold_left (fill_key rec) keys t) col =
  match Dict.lookup t col with
  | Some v => Some v
  | None => if bool_decide (col ∈ keys)
            then Some (VStr (key_part rec col)) else None
  end.
Proof.
  induction keys as [|key_name keys IH]; intros t; cbn [fold_left].
  - destruct (Dict.lookup t col); [reflexivity|].
    rewrite bool_decide_eq_false_2; [reflexivity | apply not_elem_of_nil].
  - rewrite IH, lookup_fill_key.
    destruct (Dict.lookup t col); [reflexivity|].
    destruct (decide (col = key_name)) as [->|Hne].
    + rewrite bool_decide_eq_true_2 by left. reflexivity.
    + rewrite (bool_decide_ext (col ∈ key_name :: keys) (col ∈ keys));
        [reflexivity|].
      rewrite elem_of_cons. tauto.
Qed.

Lemma lookup_fill_field (t : record) cv col :
  Dict.lookup (fill_field t cv) col =
  if bool_decide (col = fst cv) && negb (is_blank (snd cv))
     && is_blank (dict_get t (fst cv))
  then Some (snd cv) else Dict.lookup t col.
Proof.
  unfold fill_field. destruct cv as [c v]; simpl.
  destruct (is_blank v); simpl; [rewrite andb_false_r; reflexivity|].
  rewrite andb_true_r.
  destruct (is_blank (dict_get t c)); [|rewrite andb_false_r; reflexivity].
  rewrite andb_true_r. case_bool_decide as Hc.
  - subst. apply DictFacts.lookup_set_eq.
  - apply DictFacts.lookup_set_ne. congruence.
Qed.

Lemma fills_refl keys rec t : fills keys rec t t.
Proof. intros col. left. reflexivity. Qed.

Lemma fills_trans keys rec t1 t2 t3 :
  fills keys rec t1 t2 -> fills keys rec t2 t3 -> fills keys rec t1 t3.
Proof.
  intros H12 H23 col.
  destruct (H23 col) as [E23|(N2 & v & E3 & Hv & Hsrc)].
  - rewrite E23. apply H12.
  - destruct (H12 col) as [E12|(N1 & v' & E2 & Hv' & _)].
    + right. rewrite <- E12. eauto 10.
    + rewrite E2 in N2. simpl in N2. congruence.
Qed.

Lemma fills_fill_key keys (rec t : record) key_name :
  keyable keys rec = true -> key_name ∈ keys ->
  fills keys rec t (fill_key rec t key_name).
Proof.
  intros Hk Hin col. rewrite lookup_fill_key.
  destruct (Dict.lookup t col) eqn:E; [left; reflexivity|].
  destruct (decide (col = key_name)) as [->|]; [|left; reflexivity].
  right. split; [reflexivity|]. eexists. split; [reflexivity|].
  split; [apply (key_part_filled keys); assumption|]. right. auto.
Qed.

Lemma fills_fill_field keys (rec t : record) cv :
  cv ∈ rec -> fills keys rec t (fill_field t cv).
Proof.
  intros Hin col. rewrite lookup_fill_field.
  destruct (bool_decide (col = fst cv)) eqn:Ec; simpl; [|left; reflexivity].
  apply bool_decide_eq_true_1 in Ec. subst col.
  destruct (is_blank (snd cv)) eqn:Ev; simpl; [left; reflexivity|].
  destruct (is_blank (dict_get t (fst cv))) eqn:Et; [|left; reflexivity].
  right. rewrite no_value_get. split; [exact Et|].
  exists (snd cv). split; [reflexivity|]. split; [exact Ev|].
  left. destruct cv. exact Hin.
Qed.

Lemma fills_fold {B} keys rec (f : record -> B -> record) (l : list B) :
  (forall t x, x ∈ l -> fills keys rec t (f t x)) ->
  forall t, fills keys rec t (fold_left f l t).
Proof.
  induction l as [|x l IH]; intros Hf t; simpl; [apply fills_refl|].
  eapply fills_trans; [apply Hf; left|]. apply IH.
  intros t' y Hy. apply Hf. right. exact Hy.
Qed.

Lemma fills_merged_target keys (rec t : record) :
  keyable keys rec = true -> fills keys rec t (merged_target keys rec t).
Proof.
  intros Hk. unfold merged_target. eapply fills_trans.
  - apply (fills_fold keys rec (fill_key rec) keys).
    intros t' kn Hkn. apply fills_fill_key; assumption.
  - apply (fills_fold keys rec fill_field rec).
    intros t' cv Hcv. apply fills_fill_field; assumption.
Qed.

(** A field that holds a value keeps it. *)
Lemma fills_keeps keys rec (t t' : record) col v :
  fills keys rec t t' -> Dict.lookup t col = Some v -> is_blank v = false ->
  Dict.lookup t' col = Some v.
Proof.
  intros Hf Hl Hv. destruct (Hf col) as [E|(N & _)]; [congruence|].
  rewrite Hl in N. simpl in N. congruence.
Qed.

Lemma fold_left_inv {A B} (P : A -> Prop) (f : A -> B -> A) (l : list B) :
  (forall a x, x ∈ l -> P a -> P (f a x)) ->
  forall a, P a -> P (fold_left f l a).
Proof.
  induction l as [|x l IH]; intros Hf a Ha; simpl; [exact Ha|].
  apply IH; [|apply Hf; [left | exact Ha]].
  intros a' y Hy. apply Hf. right. exact Hy.
Qed.

Lemma all_filled_fill_key keys (rec t : record) key_name :
  keyable keys rec = true -> key_name ∈ keys ->
  all_filled t -> all_filled (fill_key rec t key_name).
Proof.
  intros Hk Hin Ht. unfold fill_key, Dict.setdefault.
  destruct (Dict.lookup t key_name); simpl; [exact Ht|].
  intros col v Hcv. apply DictFacts.elem_set in Hcv as [[= -> ->]|Hcv].
  - apply (key_part_filled keys); assumption.
  - eapply Ht, Hcv.
Qed.

Lemma all_filled_fill_field (t : record) cv :
  all_filled t -> all_filled (fill_field t cv).
Proof.
  intros Ht. unfold fill_field.
  destruct (is_blank (snd cv)) eqn:Ev; [exact Ht|].
  destruct (is_blank (dict_get t (fst cv))); [|exact Ht].
  intros col v Hcv. apply DictFacts.elem_set in Hcv as [[= -> ->]|Hcv].
  - exact Ev.
  - eapply Ht, Hcv.
Qed.

Lemma all_filled_merged_target keys (rec t : record) :
  keyable keys rec = true -> all_filled t ->
  all_filled (merged_target keys rec t).
Proof.
  intros Hk Ht. unfold merged_target.
  apply fold_left_inv; [intros; apply all_filled_fill_field; assumption|].
  apply fold_left_inv; [|exact Ht].
  intros t' kn Hkn Ht'. apply (all_filled_fill_key keys); assumption.
Qed.

Lemma keys_explicit_merged_target keys (rec t : record) :
  keyable keys rec = true ->
  (forall key_name, key_name ∈ keys ->
     Dict.lookup t key_name = None
     \/ Dict.lookup t key_name = Some (VStr (key_part rec key_name))) ->
  keys_explicit keys (map (key_part rec) keys) (merged_target keys rec t).
Proof.
  intros Hk Ht i key_name Hi.
  assert (key_name ∈ keys) as Hin by (eapply list_elem_of_lookup_2, Hi).
  destruct (key_part_filled keys rec key_name Hk Hin) as (Hne & Hs & Hb).
  exists (key_part rec key_name).
  split; [rewrite list_lookup_fmap, Hi; reflexivity|].
  split; [|auto].
  unfold merged_target.
  eapply (fills_keeps keys rec);
    [apply (fills_fold keys rec fill_field rec);
     intros; apply fills_fill_field; assumption | | exact Hb].
  rewrite lookup_fill_keys.
  destruct (Ht key_name Hin) as [-> | ->]; [|reflexivity].
  rewrite bool_decide_eq_true_2 by exact Hin. reflexivity.
Qed.

(** *** What one merge step does to the map of merged records *)

Lemma merge_step_unkeyable keys m rec :
  keyable keys rec = false -> merge_step keys m rec = m.
Proof. unfold merge_step. intros ->. reflexivity. Qed.

Lemma field_of_merge_step keys m (rec : record) key col :
  field_of (merge_step keys m rec) key col = field_of m key col
  \/ (no_value (field_of m key col) = true
      /\ exists v,
          field_of (merge_step keys m rec) key col = Some v
          /\ is_blank v = false
          /\ _compose_key rec keys = Some key
          /\ ((col, v) ∈ rec \/ (col ∈ keys /\ v = VStr (key_part rec col)))).
Proof.
  unfold merge_step. rewrite compose_key_spec.
  destruct (keyable keys rec) eqn:Hk; [|left; reflexivity].
  unfold field_of.
  destruct (decide (map (key_part rec) keys = key)) as [<-|Hne].
  - rewrite DictFacts.lookup_set_eq.
    set (t := match Dict.lookup m _ with Some t => t | None => [] end).
    assert (match Dict.lookup m (map (key_part rec) keys) with
            | Some target => Dict.lookup target col
            | None => None
            end = Dict.lookup t col) as ->.
    { unfold t. destruct (Dict.lookup m _); reflexivity. }
    destruct (fills_merged_target keys rec t Hk col)
      as [E|(N & v & E & Hv & Hs)].
    + left. exact E.
    + right. split; [exact N|]. exists v. auto.
  - left. rewrite DictFacts.lookup_set_ne by exact Hne. reflexivity.
Qed.

Lemma merge_step_ok keys m (rec : record) :
  Forall (merged_ok keys) m -> Forall (merged_ok keys) (merge_step keys m rec).
Proof.
  intros Hm. unfold merge_step.
  destruct (keyable keys rec) eqn:Hk; [|exact Hm].
  apply DictFacts.Forall_set; [exact Hm|].
  destruct (Dict.lookup m (map (key_part rec) keys)) as [t|] eqn:El.
  - apply DictFacts.lookup_elem in El. rewrite Forall_forall in Hm.
    destruct (Hm _ El) as [Hfilled Hexp]. simpl in *. split; simpl.
    + apply all_filled_merged_target; assumption.
    + apply keys_explicit_merged_target; [exact Hk|].
      intros key_name Hin. right.
      apply list_elem_of_lookup_1 in Hin as [i Hi].
      destruct (Hexp i key_name Hi) as (s & Hs & Hl & _).
      rewrite list_lookup_fmap, Hi in Hs. simpl in Hs. congruence.
  - split; simpl.
    + apply all_filled_merged_target; [exact Hk|].
      intros col v Hin. inversion Hin.
    + apply keys_explicit_merged_target; [exact Hk|]. intros; left; reflexivity.
Qed.

Lemma merge_steps_ok keys (recs : list record) m :
  Forall (merged_ok keys) m ->
  Forall (merged_ok keys) (fold_left (merge_step keys) recs m).
Proof.
  apply fold_left_inv. intros m' rec _. apply merge_step_ok.
Qed.

Lemma field_of_filled keys m key col v :
  Forall (merged_ok keys) m -> field_of m key col = Some v ->
  is_blank v = false.
Proof.
  unfold field_of. intros Hm Hf.
  destruct (Dict.lookup m key) as [t|] eqn:El; [|discriminate].
  apply DictFacts.lookup_elem in El. rewrite Forall_forall in Hm.
  destruct (Hm _ El) as [Hfilled _]. eapply Hfilled.
  apply DictFacts.lookup_elem, Hf.
Qed.

Lemma field_of_kept keys (recs : list record) key col v : forall m,
  field_of m key col = Some v -> is_blank v = false ->
  field_of (fold_left (merge_step keys) recs m) key col = Some v.
Proof.
  induction recs as [|rec recs IH]; intros m Hf Hv; simpl; [exact Hf|].
  apply IH; [|exact Hv].
  destruct (field_of_merge_step keys m rec key col) as [E|(N & _)];
    [congruence|].
  rewrite Hf in N. simpl in N. congruence.
Qed.

(** C1. Merge conflict policy.  (a) Merging one source record changes a field
    of a merged record only where that field had no value (missing, null or
    blank after trimming), and the value written is neither null nor blank
    and comes from the source record, whose composite key is that of the
    merged record.  (b) A field that holds a value after some records have
    been processed holds the same value after any further records and
    tables.  (c) No null or blank value is ever stored in a merged record. *)
Theorem combine_records_conflict_policy :
  forall keys : list string,
    (forall m (rec : record),
        exists m',
          merge_record keys m rec = Ok m'
          /\ forall key col,
              field_of m' key col = field_of m key col
              \/ (no_value (field_of m key col) = true
                  /\ exists v,
                      field_of m' key col = Some v
                      /\ is_blank v = false
                      /\ _compose_key rec keys = Some key
                      /\ ((col, v) ∈ rec
                          \/ (col ∈ keys /\ v = VStr (key_part rec col)))))
    /\ (forall (frames1 frames2 : list (list record)) (recs1 recs2 : list record),
           exists m1 m2,
             combine_map (frames1 ++ [recs1]) keys [] = Ok m1
             /\ combine_map (frames1 ++ [recs1 ++ recs2] ++ frames2) keys []
                = Ok m2
             /\ forall key col v,
                 field_of m1 key col = Some v -> field_of m2 key col = Some v)
    /\ (forall frames : list (list record),
           exists ds,
             combine_records frames keys = Ok ds
             /\ forall r, r ∈ ds ->
                forall col v, (col, v) ∈ r -> is_blank v = false).
Proof.
  intros keys. split; [|split].
  - intros m rec. exists (merge_step keys m rec).
    split; [apply merge_record_pure | apply field_of_merge_step].
  - intros frames1 frames2 recs1 recs2. eexists _, _.
    split; [apply combine_map_pure|]. split; [apply combine_map_pure|].
    intros key col v Hf.
    rewrite !concat_app in *. simpl in *. rewrite !app_nil_r in *.
    rewrite <- !app_assoc, (app_assoc (concat frames1)), fold_left_app.
    apply field_of_kept; [exact Hf|].
    eapply (field_of_filled keys); [|exact Hf].
    apply merge_steps_ok. constructor.
  - intros frames. eexists. split; [apply combine_records_pure|].
    intros r Hr col v Hcv.
    apply list_elem_of_fmap in Hr as ([k t] & -> & Hin).
    pose proof (merge_steps_ok keys (concat frames) [] (List.Forall_nil _)) as Hm.
    rewrite Forall_forall in Hm. destruct (Hm _ Hin) as [Hfilled _].
    eapply Hfilled, Hcv.
Qed.

(** A populated field is not regressed by a later blank. *)
Example combine_records_keeps_active :
  combine_records
    [ [ [("organisation_id", VStr "1"); ("product_status", VStr "Active")] ];
      [ [("organisation_id", VStr "1"); ("product_status", VStr "")] ] ]
    ["organisation_id"]
  = Ok [ [("organisation_id", VStr "1"); ("product_status", VStr "Active")] ].
Proof. vm_compute. reflexivity. Qed.

(** Gaps are filled from later records of the same key. *)
Example combine_records_fills_gaps :
  combine_records
    [ [ [("organisation_id", VStr "1"); ("name", VStr "Alice")];
        [("organisation_id", VStr "1"); ("product_status", VStr "Active")] ] ]
    ["organisation_id"]
  = Ok [ [("organisation_id", VStr "1"); ("name", VStr "Alice");
          ("product_status", VStr "Active")] ].
Proof. vm_compute. reflexivity. Qed.

Lemma keyable_false_iff keys (rec : record) :
  keyable keys rec = false <->
  exists key_name, key_name ∈ keys /\ is_blank (dict_get rec key_name) = true.
Proof.
  unfold keyable. induction keys as [|kn keys IH]; simpl.
  - split; [discriminate|]. intros (k & Hin & _). inversion Hin.
  - rewrite andb_false_iff, IH, negb_false_iff. split.
    + intros [H|(k & Hin & Hk)]; [exists kn | exists k]; split; auto;
        [left | right; exact Hin].
    + intros (k & Hin & Hk). apply elem_of_cons in Hin as [->|Hin]; eauto.
Qed.

Lemma merge_steps_filter keys (recs : list record) : forall m,
  fold_left (merge_step keys) (List.filter (keyable keys) recs) m
  = fold_left (merge_step keys) recs m.
Proof.
  induction recs as [|rec recs IH]; intros m; simpl; [reflexivity|].
  destruct (keyable keys rec) eqn:Hk; simpl; [apply IH|].
  rewrite (merge_step_unkeyable _ _ _ Hk). apply IH.
Qed.

Lemma concat_map_filter {A} (p : A -> bool) (ls : list (list A)) :
  concat (map (List.filter p) ls) = List.filter p (concat ls).
Proof.
  induction ls as [|l ls IH]; simpl; [reflexivity|].
  rewrite List.filter_app, IH. reflexivity.
Qed.

(** C5. Unkeyable rows and totality.  (a) A record has no composite key
    exactly when some chosen key field is absent, null, or blank once
    stringified and trimmed.  (b) Such a record leaves the map of merged
    records as it was.  (c) [combine_records] always returns a dataset, and
    it is the dataset obtained with the unkeyable records taken out of the
    input.  (d) Tables without rows give the empty dataset. *)
Theorem combine_records_total_and_skips_unkeyable :
  forall keys : list string,
    (forall rec : record,
        _compose_key rec keys = None
        <-> exists key_name,
              key_name ∈ keys /\ is_blank (dict_get rec key_name) = true)
    /\ (forall m (rec : record),
           _compose_key rec keys = None -> merge_record keys m rec = Ok m)
    /\ (forall frames : list (list record),
           exists ds,
             combine_records frames keys = Ok ds
             /\ combine_records (map (List.filter (keyable keys)) frames) keys
                = Ok ds)
    /\ (forall n : nat, combine_records (repeat [] n) keys = Ok []).
Proof.
  intros keys. split; [|split; [|split]].
  - intros rec. rewrite compose_key_spec, <- keyable_false_iff.
    destruct (keyable keys rec); split; congruence.
  - intros m rec H. unfold merge_record. rewrite H. reflexivity.
  - intros frames. eexists. split; [apply combine_records_pure|].
    rewrite combine_records_pure, concat_map_filter, merge_steps_filter.
    reflexivity.
  - intros n. rewrite combine_records_pure.
    replace (concat (repeat [] n)) with (@nil record); [reflexivity|].
    induction n as [|n IH]; simpl; [reflexivity | exact IH].
Qed.

(** A row without the key field contributes nothing. *)
Example combine_records_skips_unkeyable :
  combine_records
    [ [ [("name", VStr "Alice")];
        [("organisation_id", VStr "  "); ("name", VStr "Bob")];
        [("organisation_id", VStr "7"); ("name", VStr "Carol")] ] ]
    ["organisation_id"]
  = Ok [ [("organisation_id", VStr "7"); ("name", VStr "Carol")] ].
Proof. vm_compute. reflexivity. Qed.

(** C9. Every merged record that [combine_records] returns holds, for every
    field of the join key, the matching component of its composite key: a
    non-empty string equal to its own trimming, hence a value that is
    neither null nor blank. *)
Theorem combine_records_key_fields_explicit :
  forall (frames : list (list record)) (keys : list string),
    exists m ds,
      combine_map frames keys [] = Ok m
      /\ combine_records frames keys = Ok ds
      /\ ds = Dict.values m
      /\ (forall k target, (k, target) ∈ m ->
          forall (i : nat) key_name, keys !! i = Some key_name ->
          exists s, k !! i = Some s
                    /\ Dict.lookup target key_name = Some (VStr s)
                    /\ s <> "" /\ PyStr.strip s = s)
      /\ (forall r, r ∈ ds ->
          forall key_name, key_name ∈ keys ->
          exists v, Dict.lookup r key_name = Some v /\ is_blank v = false).
Proof.
  intros frames keys.
  pose proof (merge_steps_ok keys (concat frames) [] (List.Forall_nil _)) as Hm.
  rewrite Forall_forall in Hm.
  eexists _, _. split; [apply combine_map_pure|].
  split; [apply combine_records_pure|]. split; [reflexivity|]. split.
  - intros k target Hin. apply (Hm _ Hin).
  - intros r Hr key_name Hk.
    apply list_elem_of_fmap in Hr as ([k t] & -> & Hin).
    destruct (Hm _ Hin) as [Hfilled Hexp]. simpl in *.
    apply list_elem_of_lookup_1 in Hk as [i Hi].
    destruct (Hexp i key_name Hi) as (s & _ & Hl & _).
    exists (VStr s). split; [exact Hl|].
    eapply Hfilled, DictFacts.lookup_elem, Hl.
Qed.

(** The key text is stored trimmed, whatever the source cell looked like. *)
Example combine_records_key_trimmed :
  combine_records
    [ [ [("organisation_id", VStr "  42 "); ("name", VStr "Dora")];
        [("organisation_id", VInt 42); ("customer", VStr "Acme")] ] ]
    ["organisation_id"]
  = Ok [ [("organisation_id", VStr "42"); ("name", VStr "Dora");
          ("customer", VStr "Acme")] ].
Proof. vm_compute. reflexivity. Qed.

(** ** Derivation *)

Lemma lookup_setdefault_none_fold (fields : list string) col : forall r : record,
  Dict.lookup
    (fold_left (fun r field => snd (Dict.setdefault r field VNone)) fields r)
    col =
  match Dict.lookup r col with
  | Some v => Some v
  | None => if bool_decide (col ∈ fields) then Some VNone else None
  end.
Proof.
  induction fields as [|f fields IH]; intros r; cbn [fold_left].
  - destruct (Dict.lookup r col); [reflexivity|].
    rewrite bool_decide_eq_false_2; [reflexivity | apply not_elem_of_nil].
  - rewrite IH. unfold Dict.setdefault.
    destruct (Dict.lookup r f) eqn:Ef; simpl.
    + destruct (Dict.lookup r col) eqn:Ec; [reflexivity|].
      rewrite (bool_decide_ext (col ∈ f :: fields) (col ∈ fields));
        [reflexivity|].
      rewrite elem_of_cons. split; [|auto]. intros [->|H]; [congruence|exact H].
    + destruct (decide (f = col)) as [->|Hne].
      * rewrite DictFacts.lookup_set_eq, Ef.
        rewrite bool_decide_eq_true_2 by left. reflexivity.
      * rewrite DictFacts.lookup_set_ne by exact Hne.
        destruct (Dict.lookup r col); [reflexivity|].
        rewrite (bool_decide_ext (col ∈ f :: fields) (col ∈ fields));
          [reflexivity|].
        rewrite elem_of_cons. split; [|auto]. intros [->|H]; [congruence|exact H].
Qed.

Lemma dict_get_complete_fields (r : record) :
  dict_get (complete_fields r) "next_activity_due_date"
  = dict_get r "next_activity_due_date".
Proof.
  unfold dict_get, complete_fields. rewrite lookup_setdefault_none_fold.
  destruct (Dict.lookup r "next_activity_due_date"); [reflexivity|].
  destruct (bool_decide _); reflexivity.
Qed.

(** On a value that is null or carries text, comparing with [None] and the
    empty string is the blank test. *)
Lemma py_in_none_empty v :
  v = VNone \/ is_blank v = false ->
  py_in v [VNone; VStr ""] = is_blank v.
Proof.
  intros [->|Hv]; [reflexivity|]. rewrite Hv.
  destruct v as [|b|n|s]; try reflexivity; [discriminate|].
  destruct s; [discriminate | reflexivity].
Qed.

Lemma derive_due_flag (r : record) :
  dict_get r "next_activity_due_date" = VNone
  \/ is_blank (dict_get r "next_activity_due_date") = false ->
  Dict.lookup (derive_due r) "has_next_activity_due"
  = Some (VBool (negb (is_blank
                         (dict_get (derive_due r) "next_activity_due_date")))).
Proof.
  intros Hr. unfold derive_due. rewrite DictFacts.lookup_set_eq.
  unfold dict_get at 2. rewrite DictFacts.lookup_set_ne by discriminate.
  fold (dict_get r "next_activity_due_date").
  rewrite (py_in_none_empty _ Hr). reflexivity.
Qed.

Lemma due_flag_after_merge (frames : list (list record)) keys r :
  r ∈ Dict.values (fold_left (merge_step keys) (concat frames) []) ->
  Dict.lookup (derive_due (complete_fields r)) "has_next_activity_due"
  = Some (VBool (negb (is_blank
       (dict_get (derive_due (complete_fields r)) "next_activity_due_date")))).
Proof.
  intros Hr. apply derive_due_flag. rewrite dict_get_complete_fields.
  apply list_elem_of_fmap in Hr as ([k t] & -> & Hin).
  pose proof (merge_steps_ok keys (concat frames) [] (List.Forall_nil _)) as Hm.
  rewrite Forall_forall in Hm. destruct (Hm _ Hin) as [Hfilled _].
  simpl in *. unfold dict_get.
  destruct (Dict.lookup t "next_activity_due_date") as [v|] eqn:E; [|auto].
  right. eapply Hfilled, DictFacts.lookup_elem, E.
Qed.

(** C3. In every record that the [combine] view stores,
    [has_next_activity_due] is present and is true exactly when
    [next_activity_due_date] holds a value that is neither null nor blank
    after trimming. *)
Theorem combine_due_flag :
  forall (frames : list (list record)) (combined : list record),
    combine frames = Ok (Some combined) ->
    forall r, r ∈ combined ->
      Dict.lookup r "has_next_activity_due"
      = Some (VBool (negb (is_blank (dict_get r "next_activity_due_date")))).
Proof.
  intros frames combined Hc r Hr. unfold combine in Hc.
  destruct frames as [|frame frames]; [discriminate|].
  destruct (infer_key_columns (frame :: frames) key_options) as [keys|];
    [|discriminate].
  destruct keys as [|key_name keys]; [discriminate|].
  rewrite combine_records_pure in Hc. simpl in Hc.
  injection Hc as <-.
  apply list_elem_of_fmap in Hr as (r1 & -> & Hr).
  apply list_elem_of_fmap in Hr as (r0 & -> & Hr).
  apply (due_flag_after_merge (frame :: frames) (key_name :: keys)), Hr.
Qed.

Lemma combine_due_flag_witness :
  Dict.lookup
    [("organisation_id", VStr "1"); ("next_activity_due_date", VStr "2024-01-01");
     ("customer", VNone); ("name", VNone); ("product_status", VNone);
     ("engagement_status", VNone); ("carbon_factor", VNone);
     ("has_next_activity_due", VBool true)]
    "has_next_activity_due"
  = Some (VBool (negb (is_blank (dict_get
      [("organisation_id", VStr "1");
       ("next_activity_due_date", VStr "2024-01-01");
       ("customer", VNone); ("name", VNone); ("product_status", VNone);
       ("engagement_status", VNone); ("carbon_factor", VNone);
       ("has_next_activity_due", VBool true)]
      "next_activity_due_date")))).
Proof.
  apply (combine_due_flag
           [ [ [("organisation_id", VStr "1");
                ("next_activity_due_date", VStr "2024-01-01")] ] ]
           [ [("organisation_id", VStr "1");
              ("next_activity_due_date", VStr "2024-01-01");
              ("customer", VNone); ("name", VNone); ("product_status", VNone);
              ("engagement_status", VNone); ("carbon_factor", VNone);
              ("has_next_activity_due", VBool true)] ]).
  - vm_compute. reflexivity.
  - left.
Defined.

(** The flag on the three kinds of source cell: a date, the empty string,
    and white space only. *)
Example combine_due_flag_cases :
  combine
    [ [ [("organisation_id", VStr "1");
         ("next_activity_due_date", VStr "2024-01-01")];
        [("organisation_id", VStr "2"); ("next_activity_due_date", VStr "")];
        [("organisation_id", VStr "3"); ("next_activity_due_date", VStr "   ")] ] ]
  = Ok (Some
      [ [("organisation_id", VStr "1");
         ("next_activity_due_date", VStr "2024-01-01");
         ("customer", VNone); ("name", VNone); ("product_status", VNone);
         ("engagement_status", VNone); ("carbon_factor", VNone);
         ("has_next_activity_due", VBool true)];
        [("organisation_id", VStr "2"); ("customer", VNone); ("name", VNone);
         ("product_status", VNone); ("engagement_status", VNone);
         ("carbon_factor", VNone); ("next_activity_due_date", VNone);
         ("has_next_activity_due", VBool false)];
        [("organisation_id", VStr "3"); ("customer", VNone); ("name", VNone);
         ("product_status", VNone); ("engagement_status", VNone);
         ("carbon_factor", VNone); ("next_activity_due_date", VNone);
         ("has_next_activity_due", VBool false)] ]).
Proof. vm_compute. reflexivity. Qed.

(** The two-table scenario, from raw rows to the stored records. *)
Example combine_end_to_end :
  (n1 <- normalize_records
           [ [("Org ID", VStr "1"); ("Customer", VStr "Acme");
              ("Name", VStr "Bob"); ("Product Status", VStr "Active")] ] ;;
   n2 <- normalize_records
           [ [("organisation_id", VStr "1"); ("engagement status", VStr "Live")] ] ;;
   combine [fst n1; fst n2])
  = Ok (Some
      [ [("organisation_id", VStr "1"); ("customer", VStr "Acme");
         ("name", VStr "Bob"); ("product_status", VStr "Active");
         ("engagement_status", VStr "Live"); ("carbon_factor", VNone);
         ("next_activity_due_date", VNone);
         ("has_next_activity_due", VBool false)] ]).
Proof. vm_compute. reflexivity. Qed.

(** ** Aggregation: the value-count breakdown *)

Lemma contains_keys {V} (d : list (string * V)) k :
  Dict.contains d k = bool_decide (k ∈ Dict.keys d).
Proof.
  destruct (Dict.contains d k) eqn:E; symmetry.
  - apply bool_decide_eq_true_2, DictFacts.lookup_keys,
      DictFacts.contains_lookup, E.
  - apply bool_decide_eq_false_2. intros H.
    apply DictFacts.lookup_keys, DictFacts.contains_lookup in H. congruence.
Qed.

Lemma vc_keys field (records : list record) : forall counts : list (string * Z),
  Dict.keys
    (fold_left
       (fun counts r =>
          let key := py_str (py_or (dict_get r field) (VStr "Unknown")) in
          Dict.set counts key
            (match Dict.lookup counts key with Some n => n | None => 0 end + 1)%Z)
       records counts)
  = fold_left (fun acc x => if bool_decide (x ∈ acc) then acc else acc ++ [x])
      (map (bucket field) records) (Dict.keys counts).
Proof.
  induction records as [|r records IH]; intros counts; simpl; [reflexivity|].
  rewrite IH, DictFacts.keys_set, contains_keys. reflexivity.
Qed.

Lemma vc_lookup field (records : list record) key :
  forall counts : list (string * Z),
  Dict.lookup
    (fold_left
       (fun counts r =>
          let key := py_str (py_or (dict_get r field) (VStr "Unknown")) in
          Dict.set counts key
            (match Dict.lookup counts key with Some n => n | None => 0 end + 1)%Z)
       records counts) key
  = match occurrences key (map (bucket field) records) with
    | O => Dict.lookup counts key
    | S n =>
        Some (match Dict.lookup counts key with Some c => c | None => 0 end
              + Z.of_nat (S n))%Z
    end.
Proof.
  unfold occurrences.
  induction records as [|r records IH]; intros counts; simpl; [reflexivity|].
  rewrite IH. fold (bucket field r).
  destruct (String.eqb_spec key (bucket field r)) as [->|Hne]; simpl.
  - rewrite DictFacts.lookup_set_eq.
    destruct (length (List.filter _ _)); f_equal; lia.
  - rewrite DictFacts.lookup_set_ne by congruence. reflexivity.
Qed.

Lemma py_truthy_false v :
  py_truthy v = false
  <-> v = VNone \/ v = VStr "" \/ v = VInt 0 \/ v = VBool false.
Proof.
  destruct v as [|[]|n|s]; simpl.
  - split; auto.
  - split; [discriminate | intros [H|[H|[H|H]]]; discriminate].
  - split; auto 6.
  - rewrite negb_false_iff, Z.eqb_eq. split.
    + intros ->. auto.
    + intros [H|[H|[H|H]]]; congruence.
  - rewrite negb_false_iff, String.eqb_eq. split.
    + intros ->. auto.
    + intros [H|[H|[H|H]]]; congruence.
Qed.

(** C7, as the program has it.  The breakdown lists the buckets in order of
    first occurrence and maps each to the number of records counted under
    it.  The bucket of a record is the stringified field value, except that
    it is ["Unknown"] when the value is false in a Boolean context: null or
    missing, the empty string, the integer zero, or [False]. *)
Theorem vc_breakdown :
  forall (records : list record) (field : string),
    Dict.keys (_vc records field) = first_seen (map (bucket field) records)
    /\ (forall key,
           Dict.lookup (_vc records field) key
           = match occurrences key (map (bucket field) records) with
             | O => None
             | S n => Some (Z.of_nat (S n))
             end)
    /\ (forall r,
           bucket field r
           = if py_truthy (dict_get r field) then py_str (dict_get r field)
             else "Unknown")
    /\ (forall v,
           py_truthy v = false
           <-> v = VNone \/ v = VStr "" \/ v = VInt 0 \/ v = VBool false).
Proof.
  intros records field. split; [|split; [|split]].
  - unfold _vc, first_seen. apply (vc_keys field records []).
  - intros key. unfold _vc. rewrite vc_lookup. simpl.
    destruct (occurrences key _); reflexivity.
  - intros r. unfold bucket, py_or.
    destruct (py_truthy (dict_get r field)); reflexivity.
  - apply py_truthy_false.
Qed.

(** C7 as stated fails: the integer zero is neither null nor blank, and its
    text is ["0"], yet it is counted under ["Unknown"]. *)
Lemma vc_zero_counted_as_unknown :
  _vc [ [("product_status", VInt 0)]; [("product_status", VStr "Active")] ]
      "product_status"
    = [("Unknown", 1%Z); ("Active", 1%Z)]
  /\ is_blank (VInt 0) = false
  /\ py_str (VInt 0) = "0".
Proof. repeat split; vm_compute; reflexivity. Qed.

(** A string of white space is blank after trimming but is counted under
    itself. *)
Example vc_whitespace_counted_under_itself :
  _vc [ [("product_status", VStr "  ")]; [("product_status", VNone)];
        [("product_status", VStr "")]; [("engagement_status", VStr "Live")] ]
      "product_status"
  = [("  ", 1%Z); ("Unknown", 3%Z)].
Proof. vm_compute. reflexivity. Qed.

(** ** Python floats: decimal numerals are accepted *)

Module PyFloatFacts.
Import PyFloat.

Lemma numchar_plain c :
  numchar c = true ->
  Ascii.eqb c "_" = false /\ PyStr.isspace c = false
  /\ Ascii.eqb c "," = false.
Proof. destruct c as [[] [] [] [] [] [] [] []]; vm_compute; auto. Qed.







Lemma str_lstrip_plain l :
  forallb (fun c => negb (PyStr.isspace c)) l = true -> PyStr.lstrip_l l = l.
Proof.
  destruct l as [|c l]; simpl; [reflexivity|].
  intros H. apply andb_true_iff in H as [Hc _]. apply negb_true_iff in Hc.
  rewrite Hc. reflexivity.
Qed.

Lemma str_strip_plain l :
  forallb (fun c => negb (PyStr.isspace c)) l = true -> PyStr.strip_l l = l.
Proof.
  intros H. unfold PyStr.strip_l, PyStr.rstrip_l.
  rewrite (str_lstrip_plain l H), str_lstrip_plain; [apply rev_involutive|].
  rewrite forallb_forall in *. intros c Hc. apply H, in_rev, Hc.
Qed.

Lemma forallb_impl {A} (p q : A -> bool) l :
  (forall x, p x = true -> q x = true) ->
  forallb p l = true -> forallb q l = true.
Proof.
  intros Hpq. rewrite !forallb_forall. auto.
Qed.









End PyFloatFacts.

(** ** Aggregation: the numeric statistics *)






(** Other texts that convert without being plain decimal numerals. *)
Example to_float_beyond_decimal_numerals :
  _to_float (VStr "inf") = Some PrimFloat.infinity
  /\ _to_float (VStr "1e3") = Some (PyFloat.of_int 1000)
  /\ _to_float (VStr "1_000") = Some (PyFloat.of_int 1000)
  /\ _to_float (VStr " 7 ") = Some (PyFloat.of_int 7)
  /\ _to_float (VInt 12) = Some (PyFloat.of_int 12)
  /\ _to_float (VStr "abc") = None
  /\ _to_float (VStr ",") = None
  /\ _to_float (VBool true) = None.
Proof. repeat split; vm_compute; reflexivity. Qed.

(** White space around a numeral.  [float] removes what C takes for white
    space and the two spaces above 127; the separators 28 to 31, which
    [str.strip] removes, make it refuse the text, so that such a cell is
    not blank and yet left out of the statistics. *)
Example to_float_white_space :
  _to_float (VStr (String "009" (String "1" (String "010" EmptyString))))
  = Some (PyFloat.of_int 1)
  /\ _to_float (VStr (String "160" (String "1" (String "133" EmptyString))))
     = Some (PyFloat.of_int 1)
  /\ is_blank (VStr (String "028" EmptyString)) = true
  /\ is_blank (VStr (String "028" "1")) = false
  /\ _to_float (VStr (String "028" "1")) = None
  /\ _to_float (VStr (String "1" (String "031" EmptyString))) = None
  /\ carbon_factor_stats [ [("carbon_factor", VStr (String "028" "1"))] ]
     = Ok {| avg := PrimFloat.zero; min := PrimFloat.zero;
             max := PrimFloat.zero |}.
Proof. repeat split; vm_compute; reflexivity. Qed.

(** * Further properties of the code *)

(** ** The merge engine: order and number of the merged records *)

Lemma contains_keys_gen {K V} `{EqDecision K} (d : list (K * V)) k :
  Dict.contains d k = bool_decide (k ∈ Dict.keys d).
Proof.
  destruct (Dict.contains d k) eqn:E; symmetry.
  - apply bool_decide_eq_true_2, DictFacts.lookup_keys,
      DictFacts.contains_lookup, E.
  - apply bool_decide_eq_false_2. intros H.
    apply DictFacts.lookup_keys, DictFacts.contains_lookup in H. congruence.
Qed.

Lemma merge_step_keys keys m (rec : record) :
  Dict.keys (merge_step keys m rec) =
  if keyable keys rec
  then (if bool_decide (composite_key keys rec ∈ Dict.keys m)
        then Dict.keys m else Dict.keys m ++ [composite_key keys rec])
  else Dict.keys m.
Proof.
  unfold merge_step. destruct (keyable keys rec); [|reflexivity].
  rewrite DictFacts.keys_set, contains_keys_gen. reflexivity.
Qed.

Lemma merge_steps_keys keys (recs : list record) : forall m,
  Dict.keys (fold_left (merge_step keys) recs m) =
  fold_left (fun acc x => if bool_decide (x ∈ acc) then acc else acc ++ [x])
    (map (composite_key keys) (List.filter (keyable keys) recs))
    (Dict.keys m).
Proof.
  induction recs as [|rec recs IH]; intros m; simpl; [reflexivity|].
  rewrite IH, merge_step_keys.
  destruct (keyable keys rec); reflexivity.
Qed.

Lemma distinct_fold_NoDup {A} `{EqDecision A} (l : list A) : forall acc,
  NoDup acc ->
  NoDup (fold_left
           (fun acc x => if bool_decide (x ∈ acc) then acc else acc ++ [x])
           l acc).
Proof.
  induction l as [|x l IH]; intros acc Hacc; simpl; [exact Hacc|].
  apply IH. case_bool_decide as Hx; [exact Hacc|].
  apply NoDup_app. split; [exact Hacc|]. split.
  - intros y Hy Hy'. apply list_elem_of_singleton in Hy'. subst. auto.
  - apply NoDup_singleton.
Qed.

Lemma distinct_fold_elem {A} `{EqDecision A} (l : list A) x : forall acc,
  x ∈ fold_left
        (fun acc y => if bool_decide (y ∈ acc) then acc else acc ++ [y]) l acc
  <-> x ∈ acc \/ x ∈ l.
Proof.
  induction l as [|y l IH]; intros acc; simpl.
  - split; [auto|]. intros [H0|H0]; [exact H0 | inversion H0].
  - rewrite IH, elem_of_cons. case_bool_decide as Hy.
    + split; [tauto|]. intros [H0|[->|H0]]; auto.
    + rewrite elem_of_app, list_elem_of_singleton. tauto.
Qed.

(** X1. The merged records come out in the order in which their composite
    keys are first seen among the keyable source records, one record per
    distinct composite key; the record at each place carries the components
    of the key at that place in its key fields. *)
Theorem combine_records_first_seen_order :
  forall (frames : list (list record)) (keys : list string),
    exists m ds,
      combine_map frames keys [] = Ok m
      /\ combine_records frames keys = Ok ds
      /\ Dict.keys m
         = distinct_in_order
             (map (composite_key keys)
                  (List.filter (keyable keys) (concat frames)))
      /\ NoDup (Dict.keys m)
      /\ length ds = length (Dict.keys m)
      /\ forall (i : nat) k,
           Dict.keys m !! i = Some k ->
           exists r, ds !! i = Some r /\ keys_explicit keys k r.
Proof.
  intros frames keys. eexists _, _.
  split; [apply combine_map_pure|]. split; [apply combine_records_pure|].
  set (m := fold_left (merge_step keys) (concat frames) []).
  assert (Dict.keys m
          = distinct_in_order
              (map (composite_key keys)
                   (List.filter (keyable keys) (concat frames)))) as Hk.
  { unfold m, distinct_in_order. apply (merge_steps_keys keys _ []). }
  split; [exact Hk|]. split.
  - rewrite Hk. apply distinct_fold_NoDup, NoDup_nil_2.
  - split; [unfold Dict.values, Dict.keys; rewrite !length_map; reflexivity|].
    intros i k Hi. unfold Dict.keys in Hi. rewrite list_lookup_fmap in Hi.
    destruct (m !! i) as [[k' t]|] eqn:E; [|discriminate]. simpl in Hi.
    injection Hi as ->. exists t. split.
    + unfold Dict.values. rewrite list_lookup_fmap, E. reflexivity.
    + pose proof (merge_steps_ok keys (concat frames) [] (List.Forall_nil _))
        as Hm.
      rewrite Forall_forall in Hm.
      apply (Hm (k, t)). eapply list_elem_of_lookup_2, E.
Qed.

(** ** The merge engine: merging again, coverage, first writer *)

Lemma dict_set_same {K V} `{EqDecision K} (d : list (K * V)) k v :
  Dict.lookup d k = Some v -> Dict.set d k v = d.
Proof.
  induction d as [|[k' v'] d IH]; simpl; [discriminate|].
  destruct (decide (k = k')) as [->|Hne].
  - intros [= ->]. reflexivity.
  - intros H0. f_equal. apply IH, H0.
Qed.

Lemma fills_filled_kept keys rec (t t' : record) col :
  fills keys rec t t' ->
  no_value (Dict.lookup t col) = false ->
  no_value (Dict.lookup t' col) = false.
Proof.
  intros Hf Hc. destruct (Hf col) as [->|(N & _)]; [exact Hc | congruence].
Qed.

Lemma fills_present_kept keys rec (t t' : record) col :
  fills keys rec t t' ->
  (exists v, Dict.lookup t col = Some v) ->
  exists v, Dict.lookup t' col = Some v.
Proof.
  intros Hf [v Hv]. destruct (Hf col) as [E|(_ & w & E & _)]; eauto.
  rewrite E. eauto.
Qed.

Lemma fill_keys_present (rec t : record) keys :
  (forall key_name, key_name ∈ keys ->
     exists v, Dict.lookup t key_name = Some v) ->
  fold_left (fill_key rec) keys t = t.
Proof.
  induction keys as [|kn keys IH]; intros H; simpl; [reflexivity|].
  destruct (H kn) as [v Hv]; [left|].
  unfold fill_key at 2, Dict.setdefault. rewrite Hv. simpl.
  apply IH. intros k Hk. apply H. right. exact Hk.
Qed.

Lemma fill_fields_filled (rec t : record) :
  (forall col v, (col, v) ∈ rec -> is_blank v = false ->
     no_value (Dict.lookup t col) = false) ->
  fold_left fill_field rec t = t.
Proof.
  induction rec as [|[col v] rec IH]; intros H; simpl; [reflexivity|].
  assert (fill_field t (col, v) = t) as ->.
  { unfold fill_field. simpl. destruct (is_blank v) eqn:Ev; [reflexivity|].
    rewrite <- no_value_get, (H col v); [reflexivity | left | exact Ev]. }
  apply IH. intros c w Hin. apply H. right. exact Hin.
Qed.

Lemma merge_step_absorbed keys m (rec : record) :
  absorbed keys m rec -> merge_step keys m rec = m.
Proof.
  intros Ha. unfold merge_step.
  destruct (keyable keys rec) eqn:Hk; [|reflexivity].
  destruct (Ha Hk) as (t & Hl & Hkeys & Hcells).
  fold (composite_key keys rec). rewrite Hl. unfold merged_target.
  rewrite (fill_keys_present rec t keys Hkeys).
  rewrite (fill_fields_filled rec t Hcells).
  apply dict_set_same, Hl.
Qed.

Lemma fill_field_fills_cell (t : record) col v :
  is_blank v = false ->
  no_value (Dict.lookup (fill_field t (col, v)) col) = false.
Proof.
  intros Hv. rewrite lookup_fill_field. simpl.
  rewrite bool_decide_eq_true_2 by reflexivity. rewrite Hv. simpl.
  destruct (is_blank (dict_get t col)) eqn:E; [exact Hv|].
  rewrite no_value_get. exact E.
Qed.

Lemma fill_fields_cover (rec0 : record) : forall (rec t : record) col v,
  (forall cv, cv ∈ rec -> cv ∈ rec0) ->
  (col, v) ∈ rec -> is_blank v = false ->
  no_value (Dict.lookup (fold_left fill_field rec t) col) = false.
Proof.
  intros rec. induction rec as [|cv rec IH]; intros t col v Hsub Hin Hv.
  - inversion Hin.
  - simpl. apply elem_of_cons in Hin as [<-|Hin].
    + eapply (fills_filled_kept [] rec0);
        [|apply fill_field_fills_cell, Hv].
      apply fills_fold. intros t' x Hx. apply fills_fill_field, Hsub.
      right. exact Hx.
    + eapply IH; [|exact Hin|exact Hv]. intros x Hx. apply Hsub.
      right. exact Hx.
Qed.

Lemma merged_target_absorbs keys (rec t : record) :
  keyable keys rec = true ->
  (forall key_name, key_name ∈ keys ->
     exists v, Dict.lookup (merged_target keys rec t) key_name = Some v)
  /\ (forall col v, (col, v) ∈ rec -> is_blank v = false ->
      no_value (Dict.lookup (merged_target keys rec t) col) = false).
Proof.
  intros Hk. unfold merged_target. split.
  - intros kn Hkn.
    eapply (fills_present_kept keys rec);
      [apply fills_fold; intros; apply fills_fill_field; assumption|].
    rewrite lookup_fill_keys. destruct (Dict.lookup t kn); [eauto|].
    rewrite bool_decide_eq_true_2 by exact Hkn. eauto.
  - intros col v Hin Hv. eapply (fill_fields_cover rec); eauto.
Qed.

Lemma absorbed_after_step keys m (rec : record) :
  absorbed keys (merge_step keys m rec) rec.
Proof.
  intros Hk. unfold merge_step. rewrite Hk.
  fold (composite_key keys rec). eexists.
  split; [apply DictFacts.lookup_set_eq|].
  apply merged_target_absorbs, Hk.
Qed.

Lemma absorbed_kept_step keys m (rec rec' : record) :
  absorbed keys m rec -> absorbed keys (merge_step keys m rec') rec.
Proof.
  intros Ha Hk. destruct (Ha Hk) as (t & Hl & Hkeys & Hcells).
  unfold merge_step. destruct (keyable keys rec') eqn:Hk'; [|eauto].
  fold (composite_key keys rec').
  destruct (decide (composite_key keys rec' = composite_key keys rec))
    as [E|Hne].
  - rewrite E, Hl. eexists. split; [apply DictFacts.lookup_set_eq|].
    pose proof (fills_merged_target keys rec' t Hk') as Hf. split.
    + intros kn Hkn. eapply fills_present_kept; eauto.
    + intros col v Hin Hv. eapply fills_filled_kept; eauto.
  - exists t. split; [|auto].
    rewrite DictFacts.lookup_set_ne by exact Hne. exact Hl.
Qed.

Lemma absorbed_kept keys (recs : list record) (rec : record) : forall m,
  absorbed keys m rec ->
  absorbed keys (fold_left (merge_step keys) recs m) rec.
Proof.
  induction recs as [|r recs IH]; intros m Ha; simpl; [exact Ha|].
  apply IH, absorbed_kept_step, Ha.
Qed.

Lemma absorbed_all keys (recs : list record) : forall m (rec : record),
  rec ∈ recs -> absorbed keys (fold_left (merge_step keys) recs m) rec.
Proof.
  induction recs as [|r recs IH]; intros m rec Hin; [inversion Hin|].
  simpl. apply elem_of_cons in Hin as [->|Hin].
  - apply absorbed_kept, absorbed_after_step.
  - apply IH, Hin.
Qed.

Lemma merge_steps_absorbed keys (recs : list record) : forall m,
  (forall rec, rec ∈ recs -> absorbed keys m rec) ->
  fold_left (merge_step keys) recs m = m.
Proof.
  induction recs as [|r recs IH]; intros m H; simpl; [reflexivity|].
  rewrite merge_step_absorbed by (apply H; left).
  apply IH. intros rec Hin. apply H. right. exact Hin.
Qed.

(** X2. Merging rows again changes nothing: when every row of the further
    tables already occurs in the tables merged so far, the merged dataset
    is the same with and without the further tables. *)
Theorem combine_records_absorbs_repeats :
  forall (frames more : list (list record)) (keys : list string),
    (forall rec, rec ∈ concat more -> rec ∈ concat frames) ->
    combine_records (frames ++ more) keys = combine_records frames keys.
Proof.
  intros frames more keys Hsub.
  rewrite !combine_records_pure, concat_app, fold_left_app.
  rewrite merge_steps_absorbed; [reflexivity|].
  intros rec Hin. apply absorbed_all, Hsub, Hin.
Qed.

Lemma combine_records_absorbs_repeats_witness :
  combine_records
    ([ [ [("organisation_id", VStr "1"); ("name", VStr "Alice")];
         [("organisation_id", VStr "1"); ("name", VStr "Alicia")] ] ]
     ++ [ [ [("organisation_id", VStr "1"); ("name", VStr "Alicia")] ] ])
    ["organisation_id"]
  = combine_records
      [ [ [("organisation_id", VStr "1"); ("name", VStr "Alice")];
          [("organisation_id", VStr "1"); ("name", VStr "Alicia")] ] ]
      ["organisation_id"].
Proof.
  apply combine_records_absorbs_repeats.
  simpl. intros rec Hin. right. exact Hin.
Defined.

(** X3. No filled cell of a keyable row is lost: in the merged record of the
    row's composite key, the cell's field holds a value that is neither null
    nor blank. *)
Theorem combine_records_covers_cells :
  forall (frames : list (list record)) (keys : list string)
         (rec : record) (col : string) (v : value),
    rec ∈ concat frames ->
    keyable keys rec = true ->
    (col, v) ∈ rec ->
    is_blank v = false ->
    exists m w,
      combine_map frames keys [] = Ok m
      /\ field_of m (composite_key keys rec) col = Some w
      /\ is_blank w = false.
Proof.
  intros frames keys rec col v Hrec Hk Hin Hv.
  destruct (absorbed_all keys (concat frames) [] rec Hrec Hk)
    as (t & Hl & _ & Hcells).
  specialize (Hcells col v Hin Hv).
  destruct (Dict.lookup t col) as [w|] eqn:Ew; [|discriminate].
  eexists _, w. split; [apply combine_map_pure|].
  unfold field_of. rewrite Hl. auto.
Qed.

Lemma combine_records_covers_cells_witness :
  exists m w,
    combine_map
      [ [ [("organisation_id", VStr "1"); ("name", VStr "Alice")] ];
        [ [("organisation_id", VStr "1"); ("name", VStr "Alicia");
           ("customer", VStr "Acme")] ] ]
      ["organisation_id"] [] = Ok m
    /\ field_of m
         (composite_key ["organisation_id"]
            [("organisation_id", VStr "1"); ("name", VStr "Alicia");
             ("customer", VStr "Acme")])
         "customer" = Some w
    /\ is_blank w = false.
Proof.
  apply (combine_records_covers_cells _ _ _ "customer" (VStr "Acme")).
  - simpl. right. left.
  - reflexivity.
  - right. right. left.
  - reflexivity.
Defined.

Lemma compose_key_some keys (rec : record) k :
  _compose_key rec keys = Some k ->
  keyable keys rec = true /\ composite_key keys rec = k.
Proof.
  rewrite compose_key_spec. destruct (keyable keys rec); [|discriminate].
  intros [= <-]. auto.
Qed.

Lemma fill_fields_no_writer (r1 t : record) col :
  (forall v', (col, v') ∈ r1 -> is_blank v' = true) ->
  Dict.lookup (fold_left fill_field r1 t) col = Dict.lookup t col.
Proof.
  revert t. induction r1 as [|[c w] r1 IH]; intros t H; simpl; [reflexivity|].
  rewrite IH by (intros v' Hv'; apply H; right; exact Hv').
  rewrite lookup_fill_field. simpl.
  case_bool_decide as Hc; [|reflexivity]. subst c.
  rewrite (H w) by left. reflexivity.
Qed.

Lemma merged_target_first_writer keys (r1 r2 t : record) col v :
  keyable keys (r1 ++ (col, v) :: r2) = true ->
  col ∉ keys ->
  is_blank v = false ->
  (forall v', (col, v') ∈ r1 -> is_blank v' = true) ->
  no_value (Dict.lookup t col) = true ->
  Dict.lookup (merged_target keys (r1 ++ (col, v) :: r2) t) col = Some v.
Proof.
  intros Hk Hcol Hv Hr1 Ht. unfold merged_target.
  set (rec := r1 ++ (col, v) :: r2) in *.
  set (t1 := fold_left (fill_key rec) keys t).
  assert (Dict.lookup t1 col = Dict.lookup t col) as E1.
  { unfold t1. rewrite lookup_fill_keys.
    destruct (Dict.lookup t col); [reflexivity|].
    rewrite bool_decide_eq_false_2 by exact Hcol. reflexivity. }
  unfold rec at 1. rewrite fold_left_app. simpl.
  eapply (fills_keeps [] r2);
    [apply fills_fold; intros; apply fills_fill_field; assumption | | exact Hv].
  rewrite lookup_fill_field. simpl.
  rewrite bool_decide_eq_true_2 by reflexivity. rewrite Hv. simpl.
  rewrite <- no_value_get, fill_fields_no_writer, E1, Ht by exact Hr1.
  reflexivity.
Qed.

(** X4. First writer wins.  For a field outside the join key, the merged
    record holds the first value that is neither null nor blank among the
    cells of that field in the keyable rows of its composite key, in
    processing order: the rows before have no such cell, the rows after do
    not change it. *)
Theorem combine_records_first_writer_wins :
  forall (frames : list (list record)) (keys : list string)
         (before after : list record) (r1 r2 : record)
         (col : string) (v : value),
    concat frames = before ++ (r1 ++ (col, v) :: r2) :: after ->
    keyable keys (r1 ++ (col, v) :: r2) = true ->
    col ∉ keys ->
    is_blank v = false ->
    (forall v', (col, v') ∈ r1 -> is_blank v' = true) ->
    (forall rec' v',
        rec' ∈ before ->
        composite_key keys rec' = composite_key keys (r1 ++ (col, v) :: r2) ->
        (col, v') ∈ rec' -> is_blank v' = true) ->
    exists m,
      combine_map frames keys [] = Ok m
      /\ field_of m (composite_key keys (r1 ++ (col, v) :: r2)) col = Some v.
Proof.
  intros frames keys before after r1 r2 col v Hcat Hk Hcol Hv Hr1 Hbefore.
  eexists. split; [apply combine_map_pure|].
  rewrite Hcat, fold_left_app. simpl.
  set (rec := r1 ++ (col, v) :: r2) in *.
  set (k := composite_key keys rec) in *.
  apply field_of_kept; [|exact Hv].
  assert (no_value (field_of (fold_left (merge_step keys) before []) k col)
          = true) as Hnone.
  { apply (fold_left_inv (fun m => no_value (field_of m k col) = true));
      [|reflexivity].
    intros m rec' Hin Hm.
    destruct (field_of_merge_step keys m rec' k col)
      as [->|(_ & v' & _ & Hv' & Hkey & Hsrc)]; [exact Hm|].
    apply compose_key_some in Hkey as [_ Hkey].
    destruct Hsrc as [Hsrc|[Hsrc _]]; [|contradiction].
    rewrite (Hbefore rec' v' Hin Hkey Hsrc) in Hv'. discriminate. }
  set (m := fold_left (merge_step keys) before []) in *.
  unfold merge_step. rewrite Hk. fold (composite_key keys rec). fold k.
  unfold field_of at 1. rewrite DictFacts.lookup_set_eq.
  apply merged_target_first_writer; try assumption.
  unfold field_of in Hnone. destruct (Dict.lookup m k); [exact Hnone|].
  reflexivity.
Qed.

Lemma combine_records_first_writer_wins_witness :
  exists m,
    combine_map
      [ [ [("organisation_id", VStr "1"); ("name", VStr "")] ];
        [ [("organisation_id", VStr "1"); ("name", VStr "Alice")];
          [("organisation_id", VStr "1"); ("name", VStr "Alicia")] ] ]
      ["organisation_id"] [] = Ok m
    /\ field_of m
         (composite_key ["organisation_id"]
            ([("organisation_id", VStr "1")] ++ ("name", VStr "Alice") :: []))
         "name" = Some (VStr "Alice").
Proof.
  apply (combine_records_first_writer_wins _ _
           [ [("organisation_id", VStr "1"); ("name", VStr "")] ]
           [ [("organisation_id", VStr "1"); ("name", VStr "Alicia")] ]).
  - reflexivity.
  - reflexivity.
  - intros H. apply list_elem_of_singleton in H. discriminate.
  - reflexivity.
  - intros v' H. apply list_elem_of_singleton in H. discriminate.
  - intros rec' v' Hrec _ Hin. apply list_elem_of_singleton in Hrec. subst.
    apply elem_of_cons in Hin as [Hin|Hin]; [discriminate Hin|].
    apply list_elem_of_singleton in Hin. injection Hin as ->. reflexivity.
Defined.

(** ** The merge engine: what the composite key ignores *)

Lemma lstrip_all_space a :
  forallb PyStr.isspace a = true -> PyStr.lstrip_l a = [].
Proof.
  induction a as [|c a IH]; simpl; [reflexivity|].
  intros H. apply andb_true_iff in H as [-> H]. auto.
Qed.

Lemma lstrip_space_app a l :
  forallb PyStr.isspace a = true -> PyStr.lstrip_l (a ++ l) = PyStr.lstrip_l l.
Proof.
  induction a as [|c a IH]; simpl; [reflexivity|].
  intros H. apply andb_true_iff in H as [-> H]. auto.
Qed.

Lemma lstrip_app l b :
  PyStr.lstrip_l (l ++ b) =
  match PyStr.lstrip_l l with
  | [] => PyStr.lstrip_l b
  | r => r ++ b
  end.
Proof.
  induction l as [|c l IH]; simpl; [destruct (PyStr.lstrip_l b); reflexivity|].
  destruct (PyStr.isspace c); [exact IH | reflexivity].
Qed.

Lemma rstrip_app_space l b :
  forallb PyStr.isspace b = true -> PyStr.rstrip_l (l ++ b) = PyStr.rstrip_l l.
Proof.
  intros H. unfold PyStr.rstrip_l. rewrite rev_app_distr, lstrip_space_app;
    [reflexivity|].
  rewrite forallb_forall in *. intros c Hc. apply H, in_rev, Hc.
Qed.

Lemma strip_l_pad a l b :
  forallb PyStr.isspace a = true -> forallb PyStr.isspace b = true ->
  PyStr.strip_l (a ++ l ++ b) = PyStr.strip_l l.
Proof.
  intros Ha Hb. unfold PyStr.strip_l.
  rewrite (lstrip_space_app a _ Ha), lstrip_app.
  destruct (PyStr.lstrip_l l) as [|c r] eqn:E.
  - rewrite (lstrip_all_space b Hb). reflexivity.
  - apply rstrip_app_space, Hb.
Qed.

Lemma list_ascii_of_string_append a b :
  list_ascii_of_string (String.append a b)
  = list_ascii_of_string a ++ list_ascii_of_string b.
Proof. induction a as [|c a IH]; simpl; [reflexivity|]. rewrite IH. reflexivity. Qed.

Lemma strip_pad a s b :
  all_space a = true -> all_space b = true ->
  PyStr.strip (String.append a (String.append s b)) = PyStr.strip s.
Proof.
  intros Ha Hb. unfold PyStr.strip.
  rewrite !list_ascii_of_string_append, strip_l_pad by assumption.
  reflexivity.
Qed.

Lemma compose_key_ext keys (rec rec' : record) :
  (forall k, is_none (dict_get rec k) = is_none (dict_get rec' k)
             /\ key_part rec k = key_part rec' k) ->
  _compose_key rec keys = _compose_key rec' keys.
Proof.
  intros H. rewrite !compose_key_spec.
  assert (keyable keys rec = keyable keys rec') as ->.
  { unfold keyable. induction keys as [|k keys IH]; simpl; [reflexivity|].
    rewrite IH. f_equal. unfold is_blank.
    destruct (H k) as [-> Hp]. unfold key_part in Hp. rewrite Hp.
    reflexivity. }
  assert (map (key_part rec) keys = map (key_part rec') keys) as ->;
    [|reflexivity].
  apply map_ext. intros k. apply H.
Qed.

Lemma dict_get_set (rec : record) k v k' :
  dict_get (Dict.set rec k v) k'
  = if decide (k = k') then v else dict_get rec k'.
Proof.
  unfold dict_get. destruct (decide (k = k')) as [->|Hne].
  - rewrite DictFacts.lookup_set_eq. reflexivity.
  - rewrite DictFacts.lookup_set_ne by exact Hne. reflexivity.
Qed.

Lemma keyable_forall keys (rec : record) :
  keyable keys rec = true
  <-> forall key_name, key_name ∈ keys ->
        is_blank (dict_get rec key_name) = false.
Proof.
  unfold keyable. rewrite forallb_forall. split.
  - intros H k Hk. apply negb_true_iff, H, list_elem_of_In, Hk.
  - intros H k Hk. apply negb_true_iff, H, list_elem_of_In, Hk.
Qed.

Lemma map_key_part_eq keys (rec rec' : record) :
  map (key_part rec') keys = map (key_part rec) keys
  <-> forall key_name, key_name ∈ keys ->
        key_part rec' key_name = key_part rec key_name.
Proof.
  induction keys as [|k keys IH]; simpl.
  - split; [intros _ x Hx; inversion Hx | reflexivity].
  - split.
    + intros [= Hk Hks] x Hx.
      apply elem_of_cons in Hx as [->|Hx]; [exact Hk | apply IH; assumption].
    + intros H. f_equal; [apply H; left|].
      apply IH. intros x Hx. apply H. right. exact Hx.
Qed.

Lemma is_none_spec v : is_none v = false <-> v <> VNone.
Proof. destruct v; simpl; split; congruence. Qed.

(** X5. The composite key identifies a row by the trimmed text of its key
    cells and by nothing else.  Beside a row that has a composite key,
    another row gets the same key exactly when none of its key cells is
    absent or null and each has, as [str] writes it, the same text once
    trimmed.  So white space around a key cell is ignored, and an integer
    cell counts as the decimal text [str] gives it, padded or not; a numeral
    is not normalised any further. *)
Theorem compose_key_by_trimmed_text :
  forall (keys : list string) (rec rec' : record) (k : list string)
         (key_name : string) (a s b : string) (n : Z),
    all_space a = true ->
    all_space b = true ->
    _compose_key rec keys = Some k ->
    (_compose_key rec' keys = Some k
     <-> forall key_name, key_name ∈ keys ->
           dict_get rec' key_name <> VNone
           /\ PyStr.strip (py_str (dict_get rec' key_name))
              = PyStr.strip (py_str (dict_get rec key_name)))
    /\ _compose_key
         (Dict.set rec' key_name (VStr (String.append a (String.append s b))))
         keys
       = _compose_key (Dict.set rec' key_name (VStr s)) keys
    /\ _compose_key
         (Dict.set rec' key_name
            (VStr (String.append a (String.append (py_str (VInt n)) b))))
         keys
       = _compose_key (Dict.set rec' key_name (VInt n)) keys.
Proof.
  intros keys rec rec' k key_name a s b n Ha Hb Hk.
  split; [|split].
  - rewrite compose_key_spec in Hk.
    destruct (keyable keys rec) eqn:Hrec; [|discriminate].
    injection Hk as <-.
    pose proof (proj1 (keyable_forall keys rec) Hrec) as Hall. clear Hrec.
    rewrite compose_key_spec. split.
    + destruct (keyable keys rec') eqn:Hrec'; [|discriminate].
      intros [= Hparts].
      pose proof (proj1 (keyable_forall keys rec') Hrec') as Hall'.
      intros x Hx. split.
      * apply is_none_spec. specialize (Hall' x Hx). unfold is_blank in Hall'.
        apply orb_false_iff in Hall' as [H _]. exact H.
      * apply (proj1 (map_key_part_eq keys rec rec') Hparts x Hx).
    + intros H.
      assert (keyable keys rec' = true) as ->.
      { apply keyable_forall. intros x Hx. destruct (H x Hx) as [Hn Hp].
        specialize (Hall x Hx). unfold is_blank in *.
        apply orb_false_iff in Hall as [_ Hall].
        rewrite Hp, Hall. apply is_none_spec in Hn. rewrite Hn. reflexivity. }
      f_equal. apply map_key_part_eq. intros x Hx. apply H, Hx.
  - apply compose_key_ext. intros x. unfold key_part.
    rewrite !dict_get_set. destruct (decide (key_name = x)); [|auto].
    simpl. split; [reflexivity|]. apply strip_pad; assumption.
  - apply compose_key_ext. intros x. unfold key_part.
    rewrite !dict_get_set. destruct (decide (key_name = x)); [|auto].
    split; [reflexivity|].
    change (py_str (VStr ?t)) with t. apply strip_pad; assumption.
Qed.

Lemma compose_key_by_trimmed_text_witness :
  (_compose_key [("organisation_id", VStr "007")] ["organisation_id"]
   = Some ["7"]
   <-> forall key_name, key_name ∈ ["organisation_id"] ->
         dict_get [("organisation_id", VStr "007")] key_name <> VNone
         /\ PyStr.strip
              (py_str (dict_get [("organisation_id", VStr "007")] key_name))
            = PyStr.strip
                (py_str (dict_get [("organisation_id", VInt 7)] key_name)))
  /\ _compose_key
       (Dict.set [("organisation_id", VStr "007")] "organisation_id"
          (VStr (String.append "  " (String.append "42" " "))))
       ["organisation_id"]
     = _compose_key
         (Dict.set [("organisation_id", VStr "007")] "organisation_id"
            (VStr "42"))
         ["organisation_id"]
  /\ _compose_key
       (Dict.set [("organisation_id", VStr "007")] "organisation_id"
          (VStr (String.append "  " (String.append (py_str (VInt 7)) " "))))
       ["organisation_id"]
     = _compose_key
         (Dict.set [("organisation_id", VStr "007")] "organisation_id"
            (VInt 7))
         ["organisation_id"].
Proof.
  apply (compose_key_by_trimmed_text ["organisation_id"]
           [("organisation_id", VInt 7)]); reflexivity.
Defined.

(** The text of a numeral is kept as it is: leading zeros and a plus sign
    make another key than the integer. *)
Example compose_key_keeps_numeral_text :
  _compose_key [("organisation_id", VInt 7)] ["organisation_id"] = Some ["7"]
  /\ _compose_key [("organisation_id", VStr " 7 ")] ["organisation_id"]
     = Some ["7"]
  /\ _compose_key [("organisation_id", VStr "007")] ["organisation_id"]
     = Some ["007"]
  /\ _compose_key [("organisation_id", VStr "+7")] ["organisation_id"]
     = Some ["+7"]
  /\ _compose_key [("organisation_id", VStr "None")] ["organisation_id"]
     = Some ["None"]
  /\ _compose_key [("organisation_id", VNone)] ["organisation_id"] = None.
Proof. repeat split; vm_compute; reflexivity. Qed.

(** ** The record normaliser: the header map, and normalising again *)

Lemma map_column_fixed x : _map_column (_map_column x) = _map_column x.
Proof.
  destruct (map_column_loop_cases NORMALIZED_COLUMN_ALIASES (_canonicalize x))
    as [E|E]; fold (_map_column x) in E.
  - rewrite E. unfold _map_column. rewrite canonicalize_idem. exact E.
  - pose proof map_column_canonical_names as F.
    rewrite Forall_forall in F. apply F, list_elem_of_In, E.
Qed.

Lemma col_map_ok_cache cm k : col_map_ok cm -> col_map_ok (cache_header cm k).
Proof.
  intros Hok. unfold cache_header.
  destruct (Dict.contains cm k); simpl; [exact Hok|].
  intros k' c. destruct (decide (k = k')) as [->|Hne].
  - rewrite DictFacts.lookup_set_eq. congruence.
  - rewrite DictFacts.lookup_set_ne by exact Hne. apply Hok.
Qed.

Lemma normalize_cell_cache out cm k v :
  col_map_ok cm ->
  normalize_cell (out, cm) (k, v)
  = Ok (store_cell out (k, v), cache_header cm k).
Proof.
  intros Hok. unfold normalize_cell, cache_header, store_cell, Dict.getitem.
  destruct (Dict.contains cm k) eqn:E; simpl.
  - apply DictFacts.contains_lookup in E as [c Hc].
    rewrite Hc. simpl. rewrite (Hok _ _ Hc). reflexivity.
  - rewrite DictFacts.lookup_set_eq. reflexivity.
Qed.

Lemma normalize_cells_cache (rec : record) : forall out cm,
  col_map_ok cm ->
  foldM normalize_cell rec (out, cm)
  = Ok (fold_left store_cell rec out, fold_left cache_header (Dict.keys rec) cm).
Proof.
  induction rec as [|[k v] rec IH]; intros out cm Hok; simpl; [reflexivity|].
  rewrite normalize_cell_cache by exact Hok. simpl.
  apply IH, col_map_ok_cache, Hok.
Qed.

Lemma col_map_ok_caches hs : forall cm,
  col_map_ok cm -> col_map_ok (fold_left cache_header hs cm).
Proof.
  induction hs as [|h hs IH]; intros cm Hok; simpl; [exact Hok|].
  apply IH, col_map_ok_cache, Hok.
Qed.

Lemma normalize_rows_cache (records : list record) : forall normalized cm,
  col_map_ok cm ->
  foldM normalize_row records (normalized, cm)
  = Ok (normalized ++ map normalized_row records,
        fold_left cache_header (concat (map Dict.keys records)) cm).
Proof.
  induction records as [|rec records IH]; intros normalized cm Hok; simpl.
  - rewrite app_nil_r. reflexivity.
  - unfold normalize_row at 1. rewrite normalize_cells_cache by exact Hok.
    fold (normalized_row rec). simpl.
    rewrite IH by (apply col_map_ok_caches, Hok).
    rewrite <- app_assoc, fold_left_app. reflexivity.
Qed.

Lemma normalize_records_cache (records : list record) :
  normalize_records records
  = Ok (map normalized_row records,
        fold_left cache_header (concat (map Dict.keys records)) []).
Proof.
  apply (normalize_rows_cache records [] []). intros k c. discriminate.
Qed.

Lemma cache_headers_keys hs : forall cm : list (string * string),
  Dict.keys (fold_left cache_header hs cm)
  = fold_left (fun acc x => if bool_decide (x ∈ acc) then acc else acc ++ [x])
      hs (Dict.keys cm).
Proof.
  induction hs as [|h hs IH]; intros cm; simpl; [reflexivity|].
  rewrite IH. f_equal. unfold cache_header.
  rewrite contains_keys_gen. case_bool_decide; simpl; [reflexivity|].
  rewrite DictFacts.keys_set, contains_keys_gen.
  rewrite bool_decide_eq_false_2 by assumption. reflexivity.
Qed.

(** X6. The header map that [normalize_records] returns lists every raw
    header of the table exactly once, in the order in which the headers are
    first met, and maps each to the canonical name [_map_column] gives
    it. *)
Theorem normalize_records_header_map :
  forall records : list record,
    exists normalized col_map,
      normalize_records records = Ok (normalized, col_map)
      /\ Dict.keys col_map
         = distinct_in_order (concat (map Dict.keys records))
      /\ NoDup (Dict.keys col_map)
      /\ forall h,
           Dict.lookup col_map h
           = if bool_decide (h ∈ concat (map Dict.keys records))
             then Some (_map_column h) else None.
Proof.
  intros records. eexists _, _. split; [apply normalize_records_cache|].
  set (hs := concat (map Dict.keys records)).
  set (cm := fold_left cache_header hs []).
  assert (Dict.keys cm = distinct_in_order hs) as Hk
    by apply (cache_headers_keys hs []).
  assert (col_map_ok cm) as Hok.
  { apply col_map_ok_caches. intros k c. discriminate. }
  split; [exact Hk|]. split.
  - rewrite Hk. apply distinct_fold_NoDup, NoDup_nil_2.
  - intros h. case_bool_decide as Hin.
    + assert (h ∈ Dict.keys cm) as Hin'.
      { rewrite Hk. apply distinct_fold_elem. right. exact Hin. }
      apply DictFacts.lookup_keys in Hin' as [c Hc].
      rewrite Hc. f_equal. apply Hok, Hc.
    + destruct (Dict.lookup cm h) as [c|] eqn:E; [|reflexivity].
      exfalso. apply Hin.
      assert (h ∈ Dict.keys cm) as Hin'
        by (apply DictFacts.lookup_keys; eauto).
      rewrite Hk in Hin'. apply distinct_fold_elem in Hin' as [H0|H0];
        [inversion H0 | exact H0].
Qed.

Lemma dict_set_fresh {K V} `{EqDecision K} (d : list (K * V)) k v :
  k ∉ Dict.keys d -> Dict.set d k v = d ++ [(k, v)].
Proof.
  unfold Dict.keys. induction d as [|[k' v'] d IH]; simpl; [reflexivity|].
  intros Hk. rewrite not_elem_of_cons in Hk. destruct Hk as [Hne Hk].
  rewrite decide_False by exact Hne. f_equal. apply IH, Hk.
Qed.

Lemma dict_set_keys_NoDup {K V} `{EqDecision K} (d : list (K * V)) k v :
  NoDup (Dict.keys d) -> NoDup (Dict.keys (Dict.set d k v)).
Proof.
  intros Hd. rewrite DictFacts.keys_set, contains_keys_gen.
  case_bool_decide as Hk; [exact Hd|].
  apply NoDup_app. split; [exact Hd|]. split.
  - intros y Hy Hy'. apply list_elem_of_singleton in Hy'. subst. auto.
  - apply NoDup_singleton.
Qed.

Lemma normalized_row_keys (rec : record) : forall out : record,
  NoDup (Dict.keys out) ->
  (forall c, c ∈ Dict.keys out -> _map_column c = c) ->
  NoDup (Dict.keys (fold_left store_cell rec out))
  /\ forall c, c ∈ Dict.keys (fold_left store_cell rec out) ->
               _map_column c = c.
Proof.
  induction rec as [|[h v] rec IH]; intros out Hnd Hfix; simpl; [auto|].
  apply IH.
  - apply dict_set_keys_NoDup, Hnd.
  - intros c Hc. unfold store_cell in Hc. simpl in Hc.
    rewrite DictFacts.keys_set in Hc.
    destruct (Dict.contains out (_map_column h)); [auto|].
    apply elem_of_app in Hc as [Hc|Hc]; [auto|].
    apply list_elem_of_singleton in Hc. subst. apply map_column_fixed.
Qed.

Lemma store_cells_rebuild (rec : record) : forall out : record,
  NoDup (Dict.keys (out ++ rec)) ->
  (forall c, c ∈ Dict.keys rec -> _map_column c = c) ->
  fold_left store_cell rec out = out ++ rec.
Proof.
  induction rec as [|[c v] rec IH]; intros out Hnd Hfix; simpl.
  - rewrite app_nil_r. reflexivity.
  - unfold store_cell at 2. simpl.
    rewrite (Hfix c) by left.
    assert (c ∉ Dict.keys out) as Hfresh.
    { unfold Dict.keys in *. rewrite map_app in Hnd. simpl in Hnd.
      apply NoDup_app in Hnd as (_ & Hd & _).
      intros Hc. apply (Hd c Hc). left. }
    rewrite (dict_set_fresh out c v Hfresh), IH.
    + rewrite <- app_assoc. reflexivity.
    + rewrite <- app_assoc. exact Hnd.
    + intros c' Hc'. apply Hfix. right. exact Hc'.
Qed.

(** X7. The normalised rows are well formed and normalising is idempotent on
    them: no normalised row has a field name twice, every field name is one
    that [_map_column] maps to itself, and normalising the normalised rows
    gives the same rows back. *)
Theorem normalize_records_idempotent :
  forall records : list record,
    exists normalized col_map col_map',
      normalize_records records = Ok (normalized, col_map)
      /\ normalize_records normalized = Ok (normalized, col_map')
      /\ forall r, r ∈ normalized ->
           NoDup (Dict.keys r)
           /\ forall c, c ∈ Dict.keys r -> _map_column c = c.
Proof.
  intros records.
  assert (forall r, r ∈ map normalized_row records ->
            NoDup (Dict.keys r)
            /\ forall c, c ∈ Dict.keys r -> _map_column c = c) as Hwf.
  { intros r Hr. apply list_elem_of_fmap in Hr as (rec & -> & _).
    apply normalized_row_keys; [apply NoDup_nil_2|].
    intros c Hc. inversion Hc. }
  eexists _, _, _. split; [apply normalize_records_cache|].
  split; [|exact Hwf].
  rewrite normalize_records_cache. f_equal. f_equal.
  induction (map normalized_row records) as [|r l IH]; simpl; [reflexivity|].
  rewrite IH by (intros r' Hr'; apply Hwf; right; exact Hr').
  f_equal. destruct (Hwf r) as [Hnd Hfix]; [left|].
  apply (store_cells_rebuild r []); assumption.
Qed.

(** ** Reading a spreadsheet *)

Lemma xlsx_row_fold headers row :
  xlsx_row headers row = fold_left xlsx_cell (List.combine headers row) [].
Proof. reflexivity. Qed.

Lemma xlsx_cells_keys (l : list (string * value)) : forall rec : record,
  NoDup (Dict.keys rec) -> "" ∉ Dict.keys rec ->
  NoDup (Dict.keys (fold_left xlsx_cell l rec))
  /\ ("" ∉ Dict.keys (fold_left xlsx_cell l rec))
  /\ forall h, h ∈ Dict.keys (fold_left xlsx_cell l rec) ->
               h ∈ Dict.keys rec \/ h ∈ map fst l.
Proof.
  induction l as [|[h v] l IH]; intros rec Hnd Hne; simpl; [auto|].
  unfold xlsx_cell at 2 4 6. simpl.
  destruct (String.eqb_spec h "") as [->|Hh].
  - destruct (IH rec Hnd Hne) as (H1 & H2 & H3). split; [exact H1|].
    split; [exact H2|]. intros h' Hh'. destruct (H3 h' Hh'); auto.
    right. right. assumption.
  - assert ("" ∉ Dict.keys (Dict.set rec h v)) as Hne'.
    { rewrite DictFacts.keys_set. destruct (Dict.contains rec h); [exact Hne|].
      rewrite elem_of_app, list_elem_of_singleton. intros [H0|H0]; auto. }
    destruct (IH (Dict.set rec h v) (dict_set_keys_NoDup _ _ _ Hnd) Hne')
      as (H1 & H2 & H3).
    split; [exact H1|]. split; [exact H2|]. intros h' Hh'.
    destruct (H3 h' Hh') as [H0|H0]; [|right; right; exact H0].
    rewrite DictFacts.keys_set in H0.
    destruct (Dict.contains rec h); [auto|].
    apply elem_of_app in H0 as [H0|H0]; [auto|].
    apply list_elem_of_singleton in H0. subst. right. left.
Qed.

Lemma xlsx_cells_other (l : list (string * value)) h : forall rec : record,
  (forall v', (h, v') ∉ l) ->
  Dict.lookup (fold_left xlsx_cell l rec) h = Dict.lookup rec h.
Proof.
  induction l as [|[h' v'] l IH]; intros rec Hl; simpl; [reflexivity|].
  rewrite IH by (intros w Hw; apply (Hl w); right; exact Hw).
  unfold xlsx_cell. simpl. destruct (String.eqb h' ""); [reflexivity|].
  apply DictFacts.lookup_set_ne. intros ->. apply (Hl v'). left.
Qed.

Lemma filter_sublist {A} (p : A -> bool) (l : list A) :
  sublist (List.filter p l) l.
Proof.
  induction l as [|x l IH]; simpl; [constructor|].
  destruct (p x); [apply sublist_skip | apply sublist_cons]; exact IH.
Qed.

Lemma combine_fst_subset {A B} (l1 : list A) (l2 : list B) x :
  x ∈ map fst (List.combine l1 l2) -> x ∈ l1.
Proof.
  revert l2. induction l1 as [|a l1 IH]; intros [|b l2]; simpl;
    intros H; try (inversion H; fail).
  apply elem_of_cons in H as [->|H]; [left | right; eapply IH, H].
Qed.

(** X8. What the spreadsheet branch of [read_table] returns.  A sheet
    without rows, or with its header row only, gives no record.  The records
    come in sheet order, each from one data row; none has a field name
    twice or an empty field name, every field name is the text of a header
    cell, and every record has a value that is neither null nor blank.
    When several columns have the same header text, the record holds the
    cell of the last of them. *)
Theorem read_table_xlsx_records :
  forall (headers : list value) (rows : list (list value)),
    read_table_xlsx [] = []
    /\ read_table_xlsx [headers] = []
    /\ sublist (read_table_xlsx (headers :: rows))
               (map (xlsx_row (map header_text headers)) rows)
    /\ (forall rec,
           rec ∈ read_table_xlsx (headers :: rows) ->
           NoDup (Dict.keys rec)
           /\ ("" ∉ Dict.keys rec)
           /\ (forall h, h ∈ Dict.keys rec -> h ∈ map header_text headers)
           /\ row_has_data rec = true)
    /\ (forall row l1 l3 h v,
           List.combine (map header_text headers) row = l1 ++ (h, v) :: l3 ->
           h <> "" ->
           (forall v', (h, v') ∉ l3) ->
           Dict.lookup (xlsx_row (map header_text headers) row) h = Some v).
Proof.
  intros headers rows. split; [reflexivity|]. split; [reflexivity|].
  split; [apply filter_sublist|]. split.
  - intros rec Hrec. simpl in Hrec.
    apply list_elem_of_In, filter_In in Hrec as [Hrec Hdata].
    apply list_elem_of_In, list_elem_of_fmap in Hrec as (row & -> & _).
    fold header_text. rewrite xlsx_row_fold.
    destruct (xlsx_cells_keys
                (List.combine (map header_text headers) row) [])
      as (H1 & H2 & H3); [apply NoDup_nil_2 | apply not_elem_of_nil |].
    split; [exact H1|]. split; [exact H2|]. split; [|exact Hdata].
    intros h Hh. destruct (H3 h Hh) as [H0|H0]; [inversion H0|].
    eapply combine_fst_subset, H0.
  - intros row l1 l3 h v Hzip Hh Hl3.
    rewrite xlsx_row_fold, Hzip, fold_left_app. simpl.
    rewrite xlsx_cells_other by exact Hl3.
    unfold xlsx_cell at 1. simpl.
    destruct (String.eqb_spec h ""); [contradiction|].
    apply DictFacts.lookup_set_eq.
Qed.

(** Two columns with the same header, one without header, a short row and
    a row of blanks. *)
Example read_table_xlsx_sheet :
  read_table_xlsx
    [ [VStr "Org ID"; VNone; VStr "Name"; VStr "Name"; VInt 2024];
      [VInt 7; VStr "ignored"; VStr "Ann"; VStr "Anna"; VStr "x"];
      [VNone; VStr "ignored"; VStr " "; VNone; VStr ""];
      [VInt 8; VStr "ignored"; VStr "Bea"] ]
  = [ [("Org ID", VInt 7); ("Name", VStr "Anna"); ("2024", VStr "x")];
      [("Org ID", VInt 8); ("Name", VStr "Bea")] ].
Proof. vm_compute. reflexivity. Qed.

(** ** Key inference: empty tables and further tables *)

Lemma frames_ok_app keys (f1 f2 : list (list record)) :
  frames_ok keys (f1 ++ f2) = frames_ok keys f1 && frames_ok keys f2.
Proof.
  induction f1 as [|frame f1 IH]; simpl; [reflexivity|].
  destruct (forallb _ keys); simpl; [exact IH | reflexivity].
Qed.

Lemma frames_ok_empty_table keys (frames : list (list record)) :
  [] ∈ frames -> frames_ok keys frames = true -> keys = [].
Proof.
  intros Hin Hok. apply frames_ok_spec in Hok.
  destruct keys as [|k keys]; [reflexivity|].
  destruct (Hok [] Hin k) as (rec & Hrec & _); [left | inversion Hrec].
Qed.

(** X9. A table without rows defeats key inference: when one of the tables
    is empty, [infer_key_columns] can only return an empty candidate, the
    candidates of the [combine] view are all rejected, and the view stores
    nothing. *)
Theorem infer_key_columns_empty_table :
  forall (frames : list (list record)) (options : list (list string)),
    [] ∈ frames ->
    (forall keys, infer_key_columns frames options = Some keys -> keys = [])
    /\ infer_key_columns frames key_options = None
    /\ combine frames = Ok None.
Proof.
  intros frames options Hin.
  assert (forall opts keys,
            infer_key_columns frames opts = Some keys -> keys = []) as Hgen.
  { induction opts as [|c opts IH]; simpl; intros keys H; [discriminate|].
    destruct (frames_ok c frames) eqn:E; [|apply IH, H].
    injection H as <-. eapply frames_ok_empty_table; eassumption. }
  assert (infer_key_columns frames key_options = None) as Hnone.
  { simpl.
    destruct (frames_ok ["organisation_id"] frames) eqn:E1;
      [apply (frames_ok_empty_table _ _ Hin) in E1; discriminate|].
    destruct (frames_ok ["customer"; "name"] frames) eqn:E2;
      [apply (frames_ok_empty_table _ _ Hin) in E2; discriminate|].
    reflexivity. }
  split; [apply Hgen|]. split; [exact Hnone|].
  unfold combine. rewrite Hnone. destruct frames; reflexivity.
Qed.

Lemma infer_key_columns_empty_table_witness :
  (forall keys,
      infer_key_columns
        [ [ [("organisation_id", VStr "1")] ]; [] ] [ ["organisation_id"]; [] ]
      = Some keys -> keys = [])
  /\ infer_key_columns [ [ [("organisation_id", VStr "1")] ]; [] ] key_options
     = None
  /\ combine [ [ [("organisation_id", VStr "1")] ]; [] ] = Ok None.
Proof.
  apply infer_key_columns_empty_table. right. left.
Defined.

(** X10. Further tables never promote a candidate: the key inferred for
    more tables is, in the priority list, the key inferred for the tables
    before or a later candidate, and inference on the tables before does not
    fail. *)
Theorem infer_key_columns_more_tables :
  forall (frames more : list (list record)) (options : list (list string))
         (keys : list string),
    infer_key_columns (frames ++ more) options = Some keys ->
    exists before keys' after,
      options = before ++ keys' :: after
      /\ infer_key_columns frames options = Some keys'
      /\ keys ∈ keys' :: after.
Proof.
  intros frames more options keys.
  induction options as [|c opts IH]; simpl; intros H; [discriminate|].
  rewrite frames_ok_app in H.
  destruct (frames_ok c frames) eqn:E1; simpl in H.
  - exists [], c, opts. split; [reflexivity|]. split; [reflexivity|].
    destruct (frames_ok c more).
    + injection H as <-. left.
    + right. clear -H. induction opts as [|d opts IH]; simpl in H;
        [discriminate|].
      destruct (frames_ok d (frames ++ more)).
      * injection H as <-. left.
      * right. apply IH, H.
  - destruct (IH H) as (before & keys' & after & -> & Hf & Hin).
    exists (c :: before), keys', after. auto.
Qed.

Lemma infer_key_columns_more_tables_witness :
  exists before keys' after,
    key_options = before ++ keys' :: after
    /\ infer_key_columns
         [ [ [("organisation_id", VStr "1"); ("customer", VStr "Acme");
              ("name", VStr "Bob")] ] ] key_options = Some keys'
    /\ ["customer"; "name"] ∈ keys' :: after.
Proof.
  apply (infer_key_columns_more_tables
           [ [ [("organisation_id", VStr "1"); ("customer", VStr "Acme");
                ("name", VStr "Bob")] ] ]
           [ [ [("customer", VStr "Acme"); ("name", VStr "Bea")] ] ]).
  vm_compute. reflexivity.
Defined.

(** ** The date parser *)

Lemma strip_all_space s : all_space s = true -> PyStr.strip s = "".
Proof.
  intros H. unfold PyStr.strip, PyStr.strip_l.
  rewrite (lstrip_all_space _ H). reflexivity.
Qed.

Lemma string_of_uint_numchars d :
  forallb numchar (list_ascii_of_string (NilEmpty.string_of_uint d)) = true.
Proof. induction d; simpl; auto. Qed.

Lemma py_str_int_numchars n :
  forallb numchar (list_ascii_of_string (py_str (VInt n))) = true
  /\ py_str (VInt n) <> "".
Proof.
  unfold py_str, NilZero.string_of_int, NilZero.string_of_uint.
  destruct (Z.to_int n) as [d|d]; destruct d; simpl;
    (split; [try apply string_of_uint_numchars; reflexivity | discriminate]).
Qed.

(** The text of an integer has no white space around it and is not empty. *)
Lemma py_str_int_stripped n :
  PyStr.strip (py_str (VInt n)) = py_str (VInt n)
  /\ py_str (VInt n) <> "".
Proof.
  destruct (py_str_int_numchars n) as [Hc Hne]. split; [|exact Hne].
  unfold PyStr.strip. rewrite PyFloatFacts.str_strip_plain.
  - apply string_of_list_ascii_of_string.
  - revert Hc. apply PyFloatFacts.forallb_impl. intros c Hc.
    apply PyFloatFacts.numchar_plain in Hc as (_ & -> & _). reflexivity.
Qed.

(** X11. [parse_date] never reaches the date library with nothing to parse
    and never lets its failure through: null and text of white space only
    give null; white space around a text is ignored; and when a text or a
    number gives a result, the library was given a non-empty text without
    surrounding white space, parsed it, and the result is the ISO form of
    that date. *)
Theorem parse_date_guards :
  forall (datetime : Type)
         (dateparser_parse : option bool -> string -> result datetime)
         (isoformat : datetime -> string),
    parse_date datetime dateparser_parse isoformat VNone = None
    /\ (forall s, all_space s = true ->
          parse_date datetime dateparser_parse isoformat (VStr s) = None)
    /\ (forall a s b, all_space a = true -> all_space b = true ->
          parse_date datetime dateparser_parse isoformat
            (VStr (String.append a (String.append s b)))
          = parse_date datetime dateparser_parse isoformat (VStr s))
    /\ (forall v out,
          parse_date datetime dateparser_parse isoformat v = Some out ->
          exists dayfirst text dt,
            dateparser_parse dayfirst text = Ok dt
            /\ out = isoformat dt
            /\ text <> "" /\ PyStr.strip text = text
            /\ PyStr.strip (py_str v) = text).
Proof.
  intros datetime parse iso. split; [reflexivity|]. split; [|split].
  - intros s Hs. simpl. rewrite (strip_all_space s Hs). reflexivity.
  - intros a s b Ha Hb. simpl. rewrite (strip_pad a s b Ha Hb). reflexivity.
  - intros v out H. destruct v as [|c|n|s]; unfold parse_date in H;
      [discriminate H| | |].
    + destruct (parse None (py_str (VBool c))) as [dt|e] eqn:E; [|discriminate].
      injection H as <-. exists None, (py_str (VBool c)), dt.
      split; [exact E|]. split; [reflexivity|].
      destruct c; (split; [discriminate|]; split; reflexivity).
    + destruct (parse None (py_str (VInt n))) as [dt|e] eqn:E; [|discriminate].
      injection H as <-. exists None, (py_str (VInt n)), dt.
      destruct (py_str_int_stripped n) as [Hs Hne]. auto.
    + destruct (String.eqb_spec (PyStr.strip s) "") as [|Hne]; [discriminate|].
      destruct (parse (Some false) (PyStr.strip s)) as [dt|e] eqn:E;
        [|discriminate].
      injection H as <-. exists (Some false), (PyStr.strip s), dt.
      split; [exact E|]. split; [reflexivity|]. split; [exact Hne|].
      split; [apply PyStrFacts.strip_idem | reflexivity].
Qed.

(** ** Sorted field names *)

Lemma str_compare_gt x y :
  OrdersEx.String_as_OT.compare x y = Gt -> str_lt y x.
Proof.
  intros H. destruct (OrdersEx.String_as_OT.compare_spec x y);
    try discriminate. assumption.
Qed.

Lemma str_compare_eq x y :
  OrdersEx.String_as_OT.compare x y = Eq -> x = y.
Proof.
  intros H. destruct (OrdersEx.String_as_OT.compare_spec x y);
    try discriminate. assumption.
Qed.

Lemma str_lt_trans x y z : str_lt x y -> str_lt y z -> str_lt x z.
Proof.
  pose proof OrdersEx.String_as_OT.lt_strorder as [_ Ht]. apply Ht.
Qed.

Lemma str_lt_irrefl x : ~ str_lt x x.
Proof.
  pose proof OrdersEx.String_as_OT.lt_strorder as [Hi _]. apply Hi.
Qed.

Lemma insert_sorted_elem x l y :
  y ∈ insert_sorted x l <-> y = x \/ y ∈ l.
Proof.
  induction l as [|z l IH]; simpl.
  - rewrite list_elem_of_singleton. split; [auto|].
    intros [H|H]; [exact H | inversion H].
  - destruct (OrdersEx.String_as_OT.compare x z) eqn:E.
    + apply str_compare_eq in E. subst z. rewrite elem_of_cons. tauto.
    + rewrite elem_of_cons. tauto.
    + rewrite !elem_of_cons, IH. tauto.
Qed.

Lemma insert_sorted_HdRel x y l :
  HdRel str_lt y l -> str_lt y x -> HdRel str_lt y (insert_sorted x l).
Proof.
  intros Hl Hyx. destruct l as [|z l]; simpl; [constructor; exact Hyx|].
  destruct (OrdersEx.String_as_OT.compare x z); [exact Hl| |].
  - constructor. exact Hyx.
  - constructor. inversion Hl. assumption.
Qed.

Lemma insert_sorted_Sorted x l :
  Sorted str_lt l -> Sorted str_lt (insert_sorted x l).
Proof.
  induction l as [|z l IH]; simpl; intros Hs.
  - repeat constructor.
  - destruct (OrdersEx.String_as_OT.compare x z) eqn:E; [exact Hs| |].
    + constructor; [exact Hs|]. constructor. exact E.
    + inversion Hs as [|? ? Hs' Hhd]; subst. constructor; [apply IH, Hs'|].
      apply insert_sorted_HdRel; [exact Hhd | apply str_compare_gt, E].
Qed.

Lemma sorted_set_Sorted l : Sorted str_lt (sorted_set l).
Proof.
  induction l as [|x l IH]; simpl; [constructor|].
  apply insert_sorted_Sorted, IH.
Qed.

Lemma sorted_set_elem l y : y ∈ sorted_set l <-> y ∈ l.
Proof.
  induction l as [|x l IH]; simpl; [reflexivity|].
  rewrite insert_sorted_elem, elem_of_cons, IH. reflexivity.
Qed.

Lemma Sorted_str_lt_strong l :
  Sorted str_lt l -> StronglySorted str_lt l.
Proof.
  apply Sorted_StronglySorted. intros x y z. apply str_lt_trans.
Qed.

Lemma Sorted_str_lt_NoDup l : Sorted str_lt l -> NoDup l.
Proof.
  intros Hs. apply Sorted_str_lt_strong in Hs.
  induction Hs as [|x l Hs IH Hall]; [apply NoDup_nil_2|].
  apply NoDup_cons. split; [|exact IH].
  intros Hx. rewrite List.Forall_forall in Hall.
  apply (str_lt_irrefl x), Hall, list_elem_of_In, Hx.
Qed.

(** A strictly increasing list is determined by its elements, so
    [sorted_set] is the only candidate for [sorted] of a set. *)
Lemma Sorted_str_lt_unique l1 l2 :
  Sorted str_lt l1 -> Sorted str_lt l2 ->
  (forall x, x ∈ l1 <-> x ∈ l2) -> l1 = l2.
Proof.
  intros H1 H2. apply Sorted_str_lt_strong in H1, H2.
  revert l2 H2. induction H1 as [|x l1 Hs1 IH Hall1];
    intros l2 H2 Heq.
  - destruct l2 as [|y l2]; [reflexivity|].
    assert (y ∈ @nil string) as H by (apply Heq; left). inversion H.
  - destruct H2 as [|y l2 Hs2 Hall2].
    + assert (x ∈ @nil string) as H by (apply Heq; left). inversion H.
    + rewrite List.Forall_forall in Hall1, Hall2.
      assert (x = y) as ->.
      { assert (x ∈ y :: l2) as Hx by (apply Heq; left).
        assert (y ∈ x :: l1) as Hy by (apply Heq; left).
        apply elem_of_cons in Hx as [Hx|Hx]; [exact Hx|].
        apply elem_of_cons in Hy as [Hy|Hy]; [symmetry; exact Hy|].
        exfalso. apply (str_lt_irrefl x).
        eapply str_lt_trans; [apply Hall1, list_elem_of_In, Hy|].
        apply Hall2, list_elem_of_In, Hx. }
      f_equal. apply IH; [exact Hs2|]. intros z. split; intros Hz.
      * assert (z ∈ y :: l2) as Hz' by (apply Heq; right; exact Hz).
        apply elem_of_cons in Hz' as [->|Hz']; [|exact Hz'].
        exfalso. apply (str_lt_irrefl y), Hall1, list_elem_of_In, Hz.
      * assert (z ∈ y :: l1) as Hz' by (apply Heq; right; exact Hz).
        apply elem_of_cons in Hz' as [->|Hz']; [|exact Hz'].
        exfalso. apply (str_lt_irrefl y), Hall2, list_elem_of_In, Hz.
Qed.

Lemma csv_row_lookup (headers : list string) (row : record) h :
  h ∈ headers ->
  Dict.lookup (map (fun k => (k, dict_get row k)) headers) h
  = Some (dict_get row h).
Proof.
  induction headers as [|k headers IH]; intros Hin; [inversion Hin|].
  simpl. destruct (decide (h = k)) as [->|Hne]; [reflexivity|].
  apply IH. apply elem_of_cons in Hin as [?|Hin]; [contradiction|exact Hin].
Qed.

(** ** The [combine] view: completion of the stored records *)

Lemma contains_app_other (r : record) f f' v :
  f' <> f -> Dict.contains (r ++ [(f, v)]) f' = Dict.contains r f'.
Proof.
  intros Hne. unfold Dict.contains.
  induction r as [|[k w] r IH]; simpl.
  - rewrite decide_False by exact Hne. reflexivity.
  - destruct (decide (f' = k)); [reflexivity | exact IH].
Qed.

Lemma setdefault_none_fold (fields : list string) : forall r : record,
  NoDup fields ->
  fold_left (fun r field => snd (Dict.setdefault r field VNone)) fields r
  = r ++ map (fun f => (f, VNone))
           (List.filter (fun f => negb (Dict.contains r f)) fields).
Proof.
  induction fields as [|f fields IH]; intros r Hnd; simpl.
  - rewrite app_nil_r. reflexivity.
  - apply NoDup_cons in Hnd as [Hf Hnd]. rewrite IH by exact Hnd.
    unfold Dict.setdefault, Dict.contains.
    destruct (Dict.lookup r f) eqn:E; simpl; [reflexivity|].
    rewrite dict_set_fresh.
    + rewrite <- app_assoc. simpl. do 3 f_equal.
      apply filter_ext_in. intros f' Hf'. f_equal.
      apply (contains_app_other r f f' VNone).
      intros ->. apply Hf, list_elem_of_In, Hf'.
    + intros Hin. apply DictFacts.lookup_keys in Hin as [v Hv]. congruence.
Qed.

(** X14. What the [combine] view does to a merged record that has no field
    [has_next_activity_due]: the record keeps its fields, in their order and
    with their values; the display fields it lacks follow, in the order of
    the display list, with null; the due flag comes last. *)
Theorem combine_completes_record :
  forall r : record,
    "has_next_activity_due" ∉ Dict.keys r ->
    derive_due (complete_fields r)
    = r
      ++ map (fun f => (f, VNone))
           (List.filter (fun f => negb (Dict.contains r f)) display_fields)
      ++ [ ("has_next_activity_due",
            VBool (negb (py_in (dict_get r "next_activity_due_date")
                           [VNone; VStr ""]))) ].
Proof.
  intros r Hflag. unfold derive_due.
  rewrite dict_get_complete_fields. unfold complete_fields.
  rewrite setdefault_none_fold by (repeat constructor; vm_compute;
    intros H; repeat (apply elem_of_cons in H as [H|H]; [discriminate|]);
    inversion H).
  rewrite dict_set_fresh; [rewrite <- app_assoc; reflexivity|].
  unfold Dict.keys. rewrite map_app, elem_of_app. intros [H|H].
  - exact (Hflag H).
  - rewrite map_map in H.
    apply list_elem_of_In, in_map_iff in H as (f & Hf & H).
    simpl in Hf. subst f. apply filter_In in H as [H _]. simpl in H.
    repeat (destruct H as [H|H]; [discriminate|]). exact H.
Qed.

Lemma combine_completes_record_witness :
  derive_due
    (complete_fields
       [("organisation_id", VStr "1"); ("colour", VStr "red");
        ("name", VStr "Bob")])
  = [("organisation_id", VStr "1"); ("colour", VStr "red");
     ("name", VStr "Bob")]
    ++ map (fun f => (f, VNone))
         (List.filter
            (fun f =>
               negb (Dict.contains
                       [("organisation_id", VStr "1"); ("colour", VStr "red");
                        ("name", VStr "Bob")] f))
            display_fields)
    ++ [ ("has_next_activity_due",
          VBool (negb (py_in
                         (dict_get
                            [("organisation_id", VStr "1");
                             ("colour", VStr "red"); ("name", VStr "Bob")]
                            "next_activity_due_date")
                         [VNone; VStr ""]))) ].
Proof.
  apply combine_completes_record. simpl. intros H.
  repeat (apply elem_of_cons in H as [H|H]; [discriminate|]). inversion H.
Defined.

(** ** The session store and the views *)

Lemma setdefault_lookup {K V} `{EqDecision K} (d : list (K * V)) k v :
  Dict.lookup (snd (Dict.setdefault d k v)) k
  = Some (fst (Dict.setdefault d k v))
  /\ fst (Dict.setdefault d k v)
     = match Dict.lookup d k with Some x => x | None => v end
  /\ forall k', k' <> k ->
       Dict.lookup (snd (Dict.setdefault d k v)) k' = Dict.lookup d k'.
Proof.
  unfold Dict.setdefault. destruct (Dict.lookup d k) eqn:E; simpl.
  - auto.
  - split; [apply DictFacts.lookup_set_eq|]. split; [reflexivity|].
    intros k' Hne. apply DictFacts.lookup_set_ne. congruence.
Qed.

Lemma get_store_eq session uuid_hex S :
  _get_store session uuid_hex S
  = (session_sid session uuid_hex,
     store_at S (session_sid session uuid_hex),
     snd (_get_session_id session uuid_hex),
     snd (Dict.setdefault S (session_sid session uuid_hex) Store.empty)).
Proof.
  unfold _get_store, session_sid, store_at.
  destruct (_get_session_id session uuid_hex) as [sid session']. simpl.
  destruct (setdefault_lookup S sid Store.empty) as (_ & H & _).
  destruct (Dict.setdefault S sid Store.empty) as [store S']. simpl in *.
  rewrite H. reflexivity.
Qed.

Lemma get_store_lookup S sid :
  Dict.lookup (snd (Dict.setdefault S sid Store.empty)) sid
  = Some (store_at S sid)
  /\ forall sid', sid' <> sid ->
       Dict.lookup (snd (Dict.setdefault S sid Store.empty)) sid'
       = Dict.lookup S sid'.
Proof.
  destruct (setdefault_lookup S sid Store.empty) as (H1 & H2 & H3).
  rewrite H1, H2. auto.
Qed.

(** X15. The [combine] view and the store.  The view returns normally.  It
    leaves the tables and the file list of the session as they are.  When
    there are tables and a key is inferred, it replaces the stored dataset
    by the completed merge of the tables and goes to the dashboard; in every
    other case the stored dataset stays what it was, an earlier dataset
    included, and it goes back to the index. *)
Theorem combine_view_store :
  forall (session : list (string * string)) (uuid_hex : string)
         (IN_MEMORY_STORE : list (string * Store.t)),
    exists S' flashes resp store',
      combine_view session uuid_hex IN_MEMORY_STORE
      = Ok (snd (_get_session_id session uuid_hex), S', flashes, resp)
      /\ Dict.lookup S' (session_sid session uuid_hex) = Some store'
      /\ Store.frames store'
         = Store.frames
             (store_at IN_MEMORY_STORE (session_sid session uuid_hex))
      /\ Store.meta store'
         = Store.meta
             (store_at IN_MEMORY_STORE (session_sid session uuid_hex))
      /\ match combine
                 (Store.frames
                    (store_at IN_MEMORY_STORE (session_sid session uuid_hex)))
         with
         | Ok (Some combined) =>
             Store.combined store' = Some combined
             /\ resp = Redirect "main.dashboard"
         | _ =>
             Store.combined store'
             = Store.combined
                 (store_at IN_MEMORY_STORE (session_sid session uuid_hex))
             /\ resp = Redirect "main.index"
         end.
Proof.
  intros session uuid_hex S. unfold combine_view. rewrite get_store_eq.
  set (sid := session_sid session uuid_hex).
  set (store := store_at S sid).
  destruct (get_store_lookup S sid) as [Hl _]. fold store in Hl.
  unfold combine.
  destruct (Store.frames store) as [|frame frames] eqn:Ef.
  - eexists _, _, _, store. split; [reflexivity|]. rewrite Ef. auto.
  - destruct (infer_key_columns (frame :: frames) key_options) as [keys|].
    + destruct keys as [|key_name keys].
      * eexists _, _, _, store. split; [reflexivity|]. rewrite Ef. auto.
      * rewrite combine_records_pure. simpl.
        eexists _, _, _, _. split; [reflexivity|].
        split; [apply DictFacts.lookup_set_eq|]. simpl. auto.
    + eexists _, _, _, store. split; [reflexivity|]. rewrite Ef. auto.
Qed.

Lemma upload_files_fold (files : list upload_file) : forall store flashes,
  foldM upload_one files (store, flashes)
  = Ok ({| Store.frames :=
             Store.frames store
             ++ map (fun fr => map normalized_row (snd fr)) (readable files);
           Store.combined := Store.combined store;
           Store.meta := Store.meta store ++ map meta_of (readable files) |},
        flashes ++ map ReadFailed (unreadable files)).
Proof.
  induction files as [|f files IH]; intros store flashes; simpl.
  - rewrite !app_nil_r. destruct store. reflexivity.
  - unfold upload_one at 1, readable, unreadable. simpl.
    fold (readable files). fold (unreadable files).
    destruct (String.eqb (filename f) ""); simpl; [apply IH|].
    destruct (table_read f) as [records|e]; simpl.
    + rewrite normalize_records_cache. simpl. rewrite IH. simpl.
      rewrite <- !app_assoc. reflexivity.
    + rewrite IH. rewrite <- app_assoc. reflexivity.
Qed.

(** X16. The [upload] view and the store.  Without any file the view only
    flashes a warning: nothing is stored, not even an empty store.
    Otherwise it returns normally and appends, to the tables and to the file
    list of the session, one entry for every file that has a name and can be
    read, in upload order; each table is the normalised rows of its file.
    Files without a name are passed over, files that cannot be read are
    reported, the stored dataset is not touched, and the success message is
    flashed in every case. *)
Theorem upload_store :
  forall (files : list upload_file) (session : list (string * string))
         (uuid_hex : string) (IN_MEMORY_STORE : list (string * Store.t)),
    match files with
    | [] =>
        upload files session uuid_hex IN_MEMORY_STORE
        = Ok (session, IN_MEMORY_STORE, [SelectFile], Redirect "main.index")
    | _ =>
        exists S' store',
          upload files session uuid_hex IN_MEMORY_STORE
          = Ok (snd (_get_session_id session uuid_hex), S',
                map ReadFailed (unreadable files) ++ [Uploaded],
                Redirect "main.index")
          /\ Dict.lookup S' (session_sid session uuid_hex) = Some store'
          /\ Store.frames store'
             = Store.frames
                 (store_at IN_MEMORY_STORE (session_sid session uuid_hex))
               ++ map (fun fr => map normalized_row (snd fr)) (readable files)
          /\ Store.meta store'
             = Store.meta
                 (store_at IN_MEMORY_STORE (session_sid session uuid_hex))
               ++ map meta_of (readable files)
          /\ Store.combined store'
             = Store.combined
                 (store_at IN_MEMORY_STORE (session_sid session uuid_hex))
    end.
Proof.
  intros files session uuid_hex S. destruct files as [|f files];
    [reflexivity|].
  unfold upload. rewrite get_store_eq, upload_files_fold. simpl.
  eexists _, _. split; [reflexivity|].
  split; [apply DictFacts.lookup_set_eq|]. simpl. auto.
Qed.

(** Three files: one unnamed, one unreadable, one read. *)
Example upload_three_files :
  upload
    [ {| filename := ""; saved_name := "a1";
         table_read := Ok [ [("Name", VStr "x")] ] |};
      {| filename := "broken.xlsx"; saved_name := "b2.xlsx";
         table_read := Raise ValueError |};
      {| filename := "t.csv"; saved_name := "c3.csv";
         table_read := Ok [ [("Org ID", VStr "1"); ("Name", VStr "Bob")] ] |} ]
    [("sid", "s1")] "fresh" []
  = Ok ([("sid", "s1")],
        [ ("s1",
           {| Store.frames :=
                [ [ [("organisation_id", VStr "1"); ("name", VStr "Bob")] ] ];
              Store.combined := None;
              Store.meta :=
                [ {| Store.original_name := "t.csv";
                     Store.stored_as := "c3.csv";
                     Store.columns := ["name"; "organisation_id"];
                     Store.col_map :=
                       [("Org ID", "organisation_id"); ("Name", "name")] |} ]
           |}) ],
        [ReadFailed "broken.xlsx"; Uploaded], Redirect "main.index").
Proof. vm_compute. reflexivity. Qed.

Lemma carbon_factor_stats_ok (combined : list record) :
  exists s, carbon_factor_stats combined = Ok s.
Proof.
  unfold carbon_factor_stats.
  destruct (cf_values combined) as [|x xs]; [eexists; reflexivity|].
  unfold PyFloat.truediv_int.
  destruct (Z.eqb_spec (Z.of_nat (length (x :: xs))) 0) as [E|_];
    [simpl in E; lia|]. simpl. eexists. reflexivity.
Qed.

Lemma lookup_set_other_store (S : list (string * Store.t)) sid sid' st :
  sid' <> sid ->
  Dict.lookup (Dict.set (snd (Dict.setdefault S sid Store.empty)) sid st) sid'
  = Dict.lookup S sid'.
Proof.
  intros Hne. rewrite DictFacts.lookup_set_ne by congruence.
  apply get_store_lookup, Hne.
Qed.

(** X17. Sessions are isolated: whatever view runs under one session id, it
    returns normally and the store of every other session id is afterwards
    what it was before. *)
Theorem views_isolate_sessions :
  forall (workbook_saved : list (list value) -> option string)
         (files : list upload_file) (session : list (string * string))
         (uuid_hex : string) (IN_MEMORY_STORE : list (string * Store.t))
         (other : string),
    other <> session_sid session uuid_hex ->
    exists o1 o2 o3,
      upload files session uuid_hex IN_MEMORY_STORE = Ok o1
      /\ combine_view session uuid_hex IN_MEMORY_STORE = Ok o2
      /\ dashboard session uuid_hex IN_MEMORY_STORE = Ok o3
      /\ forall o,
           o ∈ [o1; o2; o3;
                export_csv session uuid_hex IN_MEMORY_STORE;
                export_xlsx workbook_saved session uuid_hex IN_MEMORY_STORE;
                index session uuid_hex IN_MEMORY_STORE] ->
           Dict.lookup (stores_of o) other
           = Dict.lookup IN_MEMORY_STORE other.
Proof.
  intros workbook_saved files session uuid_hex S other Hne.
  set (sid := session_sid session uuid_hex) in *.
  destruct (get_store_lookup S sid) as [_ Hother].
  specialize (Hother other Hne).
  assert (exists o1, upload files session uuid_hex S = Ok o1
                     /\ Dict.lookup (stores_of o1) other = Dict.lookup S other)
    as (o1 & E1 & H1).
  { unfold upload. destruct files as [|f files]; [eexists; split; reflexivity|].
    rewrite get_store_eq, upload_files_fold. simpl.
    eexists. split; [reflexivity|].
    unfold stores_of. simpl. apply lookup_set_other_store, Hne. }
  assert (exists o2, combine_view session uuid_hex S = Ok o2
                     /\ Dict.lookup (stores_of o2) other = Dict.lookup S other)
    as (o2 & E2 & H2).
  { unfold combine_view. rewrite get_store_eq. fold sid.
    destruct (Store.frames (store_at S sid)) as [|frame frames];
      [eexists; split; [reflexivity | exact Hother]|].
    destruct (infer_key_columns (frame :: frames) key_options) as [[|k ks]|];
      try (eexists; split; [reflexivity | exact Hother]).
    rewrite combine_records_pure. simpl. eexists. split; [reflexivity|].
    unfold stores_of. simpl. apply lookup_set_other_store, Hne. }
  assert (exists o3, dashboard session uuid_hex S = Ok o3
                     /\ Dict.lookup (stores_of o3) other = Dict.lookup S other)
    as (o3 & E3 & H3).
  { unfold dashboard. rewrite get_store_eq. fold sid.
    destruct (Store.combined (store_at S sid)) as [[|r combined]|];
      try (eexists; split; [reflexivity | exact Hother]).
    destruct (carbon_factor_stats_ok (r :: combined)) as [s ->]. simpl.
    eexists. split; [reflexivity | exact Hother]. }
  exists o1, o2, o3. split; [exact E1|]. split; [exact E2|].
  split; [exact E3|]. intros o Ho.
  repeat (apply elem_of_cons in Ho as [->|Ho]); try assumption.
  - unfold export_csv. rewrite get_store_eq. fold sid.
    destruct (Store.combined (store_at S sid)) as [[|r combined]|];
      exact Hother.
  - unfold export_xlsx. rewrite get_store_eq. fold sid.
    destruct (Store.combined (store_at S sid)) as [[|r combined]|];
      try exact Hother.
    cbv zeta. destruct (workbook_saved _); exact Hother.
  - unfold index. rewrite get_store_eq. exact Hother.
  - inversion Ho.
Qed.

Lemma views_isolate_sessions_witness :
  exists o1 o2 o3,
    upload [ {| filename := "t.csv"; saved_name := "c3.csv";
                table_read := Ok [ [("Org ID", VStr "1")] ] |} ]
      [("sid", "s1")] "fresh" [("s2", Store.empty)] = Ok o1
    /\ combine_view [("sid", "s1")] "fresh" [("s2", Store.empty)] = Ok o2
    /\ dashboard [("sid", "s1")] "fresh" [("s2", Store.empty)] = Ok o3
    /\ forall o,
         o ∈ [o1; o2; o3;
              export_csv [("sid", "s1")] "fresh" [("s2", Store.empty)];
              export_xlsx (fun _ => None) [("sid", "s1")] "fresh"
                [("s2", Store.empty)];
              index [("sid", "s1")] "fresh" [("s2", Store.empty)]] ->
         Dict.lookup (stores_of o) "s2"
         = Dict.lookup [("s2", Store.empty)] "s2".
Proof.
  apply views_isolate_sessions. vm_compute. discriminate.
Defined.

(** X18. A session keeps its id.  When the id drawn for a new session is
    not empty, the id [_get_session_id] returns is not empty and is stored
    in the session, asking again returns the same id and leaves the session
    as it is, whatever id would be drawn then, and the other entries of the
    session are not touched. *)
Theorem get_session_id_stable :
  forall (session : list (string * string)) (uuid_hex uuid_hex' : string),
    uuid_hex <> "" ->
    fst (_get_session_id session uuid_hex) <> ""
    /\ Dict.lookup (snd (_get_session_id session uuid_hex)) "sid"
       = Some (fst (_get_session_id session uuid_hex))
    /\ _get_session_id (snd (_get_session_id session uuid_hex)) uuid_hex'
       = _get_session_id session uuid_hex
    /\ forall k, k <> "sid" ->
         Dict.lookup (snd (_get_session_id session uuid_hex)) k
         = Dict.lookup session k.
Proof.
  intros session uuid_hex uuid_hex' Hne. unfold _get_session_id.
  destruct (Dict.lookup session "sid") as [sid|] eqn:E.
  - destruct (String.eqb_spec sid "") as [->|Hsid]; simpl.
    + rewrite DictFacts.lookup_set_eq.
      destruct (String.eqb_spec uuid_hex ""); [contradiction|].
      repeat split; auto. intros k Hk.
      apply DictFacts.lookup_set_ne. congruence.
    + rewrite E. destruct (String.eqb_spec sid ""); [contradiction|]. auto.
  - simpl. rewrite DictFacts.lookup_set_eq.
    destruct (String.eqb_spec uuid_hex ""); [contradiction|].
    repeat split; auto. intros k Hk.
    apply DictFacts.lookup_set_ne. congruence.
Qed.

Lemma get_session_id_stable_witness :
  fst (_get_session_id [("theme", "dark")] "3f2a") <> ""
  /\ Dict.lookup (snd (_get_session_id [("theme", "dark")] "3f2a")) "sid"
     = Some (fst (_get_session_id [("theme", "dark")] "3f2a"))
  /\ _get_session_id (snd (_get_session_id [("theme", "dark")] "3f2a")) "9b1c"
     = _get_session_id [("theme", "dark")] "3f2a"
  /\ forall k, k <> "sid" ->
       Dict.lookup (snd (_get_session_id [("theme", "dark")] "3f2a")) k
       = Dict.lookup [("theme", "dark")] k.
Proof.
  apply get_session_id_stable. discriminate.
Defined.

(** ** The exports *)

Lemma dict_get_missing (r : record) h :
  h ∉ Dict.keys r -> dict_get r h = VNone.
Proof.
  intros Hh. unfold dict_get.
  destruct (Dict.lookup r h) as [v|] eqn:E; [|reflexivity].
  exfalso. apply Hh, DictFacts.lookup_keys. eauto.
Qed.

(** X12. The exports.  For a session with a combined dataset that is not
    empty, the header list is the field names of the merged records in
    strictly increasing order, each once, and it is the only such list.  The
    CSV export hands the writer one row per record, in order; every row has
    exactly the headers as fields, in their order, and under each header the
    value the record has for it, null when it has none.  The spreadsheet
    export appends the headers and then, per record, one cell per header
    with the same values; it answers with the file when openpyxl accepts
    these rows and with status 500 when it raises. *)
Theorem export_headers_and_rows :
  forall (workbook_saved : list (list value) -> option string)
         (session : list (string * string)) (uuid_hex : string)
         (IN_MEMORY_STORE : list (string * Store.t))
         (combined : list record),
    Store.combined (store_at IN_MEMORY_STORE (session_sid session uuid_hex))
    = Some combined ->
    combined <> [] ->
    Sorted str_lt (export_headers combined)
    /\ NoDup (export_headers combined)
    /\ (forall h, h ∈ export_headers combined
                  <-> exists r, r ∈ combined /\ h ∈ Dict.keys r)
    /\ (forall l, Sorted str_lt l ->
                  (forall h, h ∈ l <-> exists r, r ∈ combined /\ h ∈ Dict.keys r) ->
                  l = export_headers combined)
    /\ (exists rows,
          response_of (export_csv session uuid_hex IN_MEMORY_STORE)
          = CsvRows (export_headers combined) rows
          /\ length rows = length combined
          /\ forall (i : nat) r,
               combined !! i = Some r ->
               exists row,
                 rows !! i = Some row
                 /\ Dict.keys row = export_headers combined
                 /\ (forall h, h ∈ export_headers combined ->
                               Dict.lookup row h = Some (dict_get r h))
                 /\ (forall h, h ∈ export_headers combined ->
                               h ∉ Dict.keys r ->
                               Dict.lookup row h = Some VNone))
    /\ (exists sheet,
          response_of
            (export_xlsx workbook_saved session uuid_hex IN_MEMORY_STORE)
          = match workbook_saved sheet with
            | Some _ => XlsxRows sheet
            | None => ServerError 500
            end
          /\ length sheet = S (length combined)
          /\ sheet !! 0%nat = Some (map VStr (export_headers combined))
          /\ forall (i : nat) r,
               combined !! i = Some r ->
               exists cells,
                 sheet !! S i = Some cells
                 /\ length cells = length (export_headers combined)
                 /\ forall (j : nat) h,
                      export_headers combined !! j = Some h ->
                      cells !! j = Some (dict_get r h)).
Proof.
  intros workbook_saved session uuid_hex S combined Hc Hne.
  assert (forall h, h ∈ export_headers combined
                    <-> exists r, r ∈ combined /\ h ∈ Dict.keys r) as Hmem.
  { intros h. unfold export_headers. rewrite sorted_set_elem.
    rewrite list_elem_of_In, in_concat. split.
    - intros (ks & Hks & Hh). apply in_map_iff in Hks as (r & <- & Hr).
      exists r. split; apply list_elem_of_In; assumption.
    - intros (r & Hr & Hh). exists (Dict.keys r).
      split; [apply in_map, list_elem_of_In, Hr | apply list_elem_of_In, Hh]. }
  pose proof (sorted_set_Sorted (concat (map Dict.keys combined))) as Hs.
  fold (export_headers combined) in Hs.
  split; [exact Hs|]. split; [apply Sorted_str_lt_NoDup, Hs|].
  split; [exact Hmem|]. split; [|split].
  - intros l Hl Hl'. apply Sorted_str_lt_unique; [exact Hl | exact Hs|].
    intros x. rewrite Hl', Hmem. reflexivity.
  - exists (csv_rows (export_headers combined) combined).
    split; [|split; [apply length_map|]].
    + unfold export_csv, response_of. rewrite get_store_eq.
      fold (session_sid session uuid_hex). rewrite Hc.
      destruct combined; [contradiction | reflexivity].
    + intros i r Hi. eexists. unfold csv_rows.
      split; [rewrite list_lookup_fmap, Hi; reflexivity|].
      split; [|split].
      * unfold Dict.keys. rewrite map_map. simpl. apply map_id.
      * intros h Hh. apply csv_row_lookup, Hh.
      * intros h Hh Hr. rewrite csv_row_lookup by exact Hh.
        rewrite dict_get_missing by exact Hr. reflexivity.
  - exists (xlsx_sheet (export_headers combined) combined).
    split; [|split; [|split]].
    + unfold export_xlsx, response_of. rewrite get_store_eq.
      fold (session_sid session uuid_hex). rewrite Hc.
      destruct combined as [|r0 rest]; [contradiction|].
      cbv zeta.
      destruct (workbook_saved
                  (xlsx_sheet (export_headers (r0 :: rest)) (r0 :: rest)));
        reflexivity.
    + unfold xlsx_sheet. simpl. rewrite length_map. reflexivity.
    + reflexivity.
    + intros i r Hi. eexists. unfold xlsx_sheet.
      split; [simpl; rewrite list_lookup_fmap, Hi; reflexivity|].
      split; [apply length_map|].
      intros j h Hj. rewrite list_lookup_fmap, Hj. reflexivity.
Qed.

Lemma export_headers_and_rows_witness :
  exists sheet : list (list value),
    response_of
      (export_xlsx (fun _ => None) [("sid", "s1")] "fresh"
         [("s1", {| Store.frames := []; Store.meta := [];
                    Store.combined :=
                      Some [ [("organisation_id", VStr "1");
                              ("name", VStr "Bob")];
                             [("organisation_id", VStr "2");
                              ("customer", VStr "Acme")] ] |})])
    = ServerError 500
    /\ sheet !! 0%nat
       = Some [VStr "customer"; VStr "name"; VStr "organisation_id"]
    /\ sheet !! 2%nat = Some [VStr "Acme"; VNone; VStr "2"].
Proof.
  destruct (export_headers_and_rows (fun _ => None) [("sid", "s1")] "fresh"
              [("s1", {| Store.frames := []; Store.meta := [];
                         Store.combined :=
                           Some [ [("organisation_id", VStr "1");
                                   ("name", VStr "Bob")];
                                  [("organisation_id", VStr "2");
                                   ("customer", VStr "Acme")] ] |})]
              [ [("organisation_id", VStr "1"); ("name", VStr "Bob")];
                [("organisation_id", VStr "2"); ("customer", VStr "Acme")] ]
              eq_refl ltac:(discriminate))
    as (_ & _ & _ & _ & _ & sheet & Hresp & _ & Hhead & Hrows).
  exists sheet. split; [exact Hresp|]. split; [exact Hhead|].
  destruct (Hrows 1%nat _ eq_refl) as (cells & Hcells & Hlen & Hget).
  rewrite Hcells. f_equal.
  destruct cells as [|c1 [|c2 [|c3 [|c4 cells]]]]; try discriminate Hlen.
  pose proof (Hget 0%nat _ eq_refl) as H0.
  pose proof (Hget 1%nat _ eq_refl) as H1.
  pose proof (Hget 2%nat _ eq_refl) as H2.
  simpl in H0, H1, H2.
  injection H0 as ->. injection H1 as ->. injection H2 as ->. reflexivity.
Defined.

(** The rows handed to the CSV writer for a dataset with sparse records. *)
Example export_csv_sparse_rows :
  response_of
    (export_csv [("sid", "s1")] "fresh"
       [("s1", {| Store.frames := []; Store.meta := [];
                  Store.combined :=
                    Some [ [("organisation_id", VStr "1"); ("name", VStr "Bob")];
                           [("organisation_id", VStr "2");
                            ("customer", VStr "Acme")] ] |})])
  = CsvRows ["customer"; "name"; "organisation_id"]
      [ [("customer", VNone); ("name", VStr "Bob");
         ("organisation_id", VStr "1")];
        [("customer", VStr "Acme"); ("name", VNone);
         ("organisation_id", VStr "2")] ].
Proof. vm_compute. reflexivity. Qed.

(** ** The dashboard *)

Lemma sum_counts_set (counts : list (string * Z)) key :
  sum_counts
    (Dict.set counts key
       (match Dict.lookup counts key with Some n => n | None => 0 end + 1)%Z)
  = (sum_counts counts + 1)%Z.
Proof.
  induction counts as [|[k n] counts IH]; simpl; [lia|].
  destruct (decide (key = k)) as [->|Hne]; simpl; [lia|].
  rewrite IH. lia.
Qed.

Lemma vc_sum field (records : list record) :
  forall counts : list (string * Z),
    sum_counts
      (fold_left
         (fun counts r =>
            let key := py_str (py_or (dict_get r field) (VStr "Unknown")) in
            Dict.set counts key
              (match Dict.lookup counts key with Some n => n | None => 0 end
               + 1)%Z)
         records counts)
    = (sum_counts counts + Z.of_nat (length records))%Z.
Proof.
  induction records as [|r records IH]; intros counts;
    [simpl; lia|].
  cbn [fold_left length]. rewrite IH. cbv zeta. rewrite sum_counts_set. lia.
Qed.

Lemma vc_positive field (records : list record) key n :
  Dict.lookup (_vc records field) key = Some n -> (1 <= n)%Z.
Proof.
  unfold _vc. rewrite vc_lookup. simpl.
  destruct (occurrences key _); [discriminate|]. intros [= <-]. lia.
Qed.

Lemma count_due_fold (combined : list record) : forall n,
  fold_left
    (fun n r => if py_truthy (dict_get r "has_next_activity_due")
                then (n + 1)%Z else n)
    combined n
  = (n + Z.of_nat
           (length (List.filter
                      (fun r => py_truthy (dict_get r "has_next_activity_due"))
                      combined)))%Z.
Proof.
  induction combined as [|r combined IH]; intros n; simpl; [lia|].
  rewrite IH. destruct (py_truthy _); simpl; lia.
Qed.

Lemma filter_length_le {A} (f : A -> bool) (l : list A) :
  (length (List.filter f l) <= length l)%nat.
Proof.
  induction l as [|x l IH]; simpl; [lia|]. destruct (f x); simpl; lia.
Qed.

(** X19. The figures of the dashboard agree with one another.  The view
    never raises; it redirects to the index exactly when the session has no
    combined data or an empty one, and otherwise the page it renders has as
    total the number of combined records, both breakdowns add up to that
    total with every listed bucket counted at least once, the count of
    records with an activity due lies between zero and the total, and the
    table holds the first 200 records at most. *)
Theorem dashboard_figures_agree :
  forall (session : list (string * string)) (uuid_hex : string)
         (IN_MEMORY_STORE : list (string * Store.t)),
    exists o,
      dashboard session uuid_hex IN_MEMORY_STORE = Ok o
      /\ match response_of o with
         | Redirect endpoint =>
             endpoint = "main.index"
             /\ (Store.combined
                   (store_at IN_MEMORY_STORE (session_sid session uuid_hex))
                 = None
                 \/ Store.combined
                      (store_at IN_MEMORY_STORE (session_sid session uuid_hex))
                    = Some [])
         | RenderDashboard page =>
             exists combined,
               Store.combined
                 (store_at IN_MEMORY_STORE (session_sid session uuid_hex))
               = Some combined
               /\ combined <> []
               /\ total_contractors page = Z.of_nat (length combined)
               /\ sum_counts (engagement_breakdown page)
                  = total_contractors page
               /\ sum_counts (product_breakdown page) = total_contractors page
               /\ (forall key n,
                     Dict.lookup (engagement_breakdown page) key = Some n
                     \/ Dict.lookup (product_breakdown page) key = Some n ->
                     (1 <= n)%Z)
               /\ (0 <= due_soon_count page <= total_contractors page)%Z
               /\ length (table page) = Nat.min 200 (length combined)
         | _ => False
         end.
Proof.
  intros session uuid_hex S. unfold dashboard. rewrite get_store_eq.
  fold (session_sid session uuid_hex).
  set (sid := session_sid session uuid_hex).
  destruct (Store.combined (store_at S sid)) as [[|r combined]|] eqn:E.
  - eexists. split; [reflexivity|]. simpl. auto.
  - destruct (carbon_factor_stats_ok (r :: combined)) as [s ->].
    eexists. split; [reflexivity|].
    unfold response_of. cbn [bind snd].
    exists (r :: combined). cbn [total_contractors engagement_breakdown
      product_breakdown due_soon_count table].
    split; [reflexivity|]. split; [discriminate|]. split; [reflexivity|].
    split; [unfold _vc; rewrite vc_sum; simpl; lia|].
    split; [unfold _vc; rewrite vc_sum; simpl; lia|].
    split; [intros key n [H|H]; eapply vc_positive, H|].
    split.
    + unfold count_due. rewrite count_due_fold.
      pose proof (filter_length_le
        (fun r => py_truthy (dict_get r "has_next_activity_due"))
        (r :: combined)). lia.
    + unfold sample_rows. rewrite length_map, length_firstn. reflexivity.
  - eexists. split; [reflexivity|]. simpl. auto.
Qed.

(** X20. On what the [combine] view has stored, the dashboard's count of
    records with an activity due is the number of records whose
    [next_activity_due_date] is neither null nor blank. *)
Theorem count_due_of_combined :
  forall (frames : list (list record)) (combined : list record),
    combine frames = Ok (Some combined) ->
    count_due combined
    = Z.of_nat
        (length
           (List.filter
              (fun r => negb (is_blank (dict_get r "next_activity_due_date")))
              combined)).
Proof.
  intros frames combined Hc. unfold count_due. rewrite count_due_fold.
  rewrite Z.add_0_l. do 2 f_equal.
  unfold combine in Hc.
  destruct frames as [|frame frames]; [discriminate|].
  destruct (infer_key_columns (frame :: frames) key_options) as [keys|];
    [|discriminate].
  destruct keys as [|key_name keys]; [discriminate|].
  rewrite combine_records_pure in Hc. simpl in Hc.
  injection Hc as <-.
  apply filter_ext_in. intros r Hr.
  apply in_map_iff in Hr as (r1 & <- & Hr).
  apply in_map_iff in Hr as (r0 & <- & Hr).
  apply list_elem_of_In in Hr.
  pose proof (due_flag_after_merge (frame :: frames) (key_name :: keys) r0 Hr)
    as Hflag.
  unfold dict_get at 1. rewrite Hflag. reflexivity.
Qed.

Lemma count_due_of_combined_witness :
  combine [ [ [("organisation_id", VStr "1");
               ("next_activity_due_date", VStr "2025-01-31")];
              [("organisation_id", VStr "2");
               ("next_activity_due_date", VStr "  ")];
              [("organisation_id", VStr "3")] ] ]
  = Ok (Some
      [ [("organisation_id", VStr "1");
         ("next_activity_due_date", VStr "2025-01-31");
         ("customer", VNone); ("name", VNone); ("product_status", VNone);
         ("engagement_status", VNone); ("carbon_factor", VNone);
         ("has_next_activity_due", VBool true)];
        [("organisation_id", VStr "2"); ("customer", VNone); ("name", VNone);
         ("product_status", VNone); ("engagement_status", VNone);
         ("carbon_factor", VNone); ("next_activity_due_date", VNone);
         ("has_next_activity_due", VBool false)];
        [("organisation_id", VStr "3"); ("customer", VNone); ("name", VNone);
         ("product_status", VNone); ("engagement_status", VNone);
         ("carbon_factor", VNone); ("next_activity_due_date", VNone);
         ("has_next_activity_due", VBool false)] ])
  /\ count_due
       [ [("organisation_id", VStr "1");
          ("next_activity_due_date", VStr "2025-01-31");
          ("customer", VNone); ("name", VNone); ("product_status", VNone);
          ("engagement_status", VNone); ("carbon_factor", VNone);
          ("has_next_activity_due", VBool true)];
         [("organisation_id", VStr "2"); ("customer", VNone); ("name", VNone);
          ("product_status", VNone); ("engagement_status", VNone);
          ("carbon_factor", VNone); ("next_activity_due_date", VNone);
          ("has_next_activity_due", VBool false)];
         [("organisation_id", VStr "3"); ("customer", VNone); ("name", VNone);
          ("product_status", VNone); ("engagement_status", VNone);
          ("carbon_factor", VNone); ("next_activity_due_date", VNone);
          ("has_next_activity_due", VBool false)] ]
     = 1%Z.
Proof.
  assert (combine [ [ [("organisation_id", VStr "1");
               ("next_activity_due_date", VStr "2025-01-31")];
              [("organisation_id", VStr "2");
               ("next_activity_due_date", VStr "  ")];
              [("organisation_id", VStr "3")] ] ]
  = Ok (Some
      [ [("organisation_id", VStr "1");
         ("next_activity_due_date", VStr "2025-01-31");
         ("customer", VNone); ("name", VNone); ("product_status", VNone);
         ("engagement_status", VNone); ("carbon_factor", VNone);
         ("has_next_activity_due", VBool true)];
        [("organisation_id", VStr "2"); ("customer", VNone); ("name", VNone);
         ("product_status", VNone); ("engagement_status", VNone);
         ("carbon_factor", VNone); ("next_activity_due_date", VNone);
         ("has_next_activity_due", VBool false)];
        [("organisation_id", VStr "3"); ("customer", VNone); ("name", VNone);
         ("product_status", VNone); ("engagement_status", VNone);
         ("carbon_factor", VNone); ("next_activity_due_date", VNone);
         ("has_next_activity_due", VBool false)] ])) as Hc
    by (vm_compute; reflexivity).
  split; [exact Hc|].
  rewrite (count_due_of_combined _ _ Hc). vm_compute. reflexivity.
Defined.

(** X21. The table of the dashboard shows the first 200 combined records,
    in their order, each cut down to the display fields that the [combine]
    view completes: the row at a position has exactly those fields, in that
    order, and each holds what the record at that position holds there, null
    when the record has no such field. *)
Theorem sample_rows_show_display_fields :
  forall (combined : list record),
    length (sample_rows combined) = Nat.min 200 (length combined)
    /\ forall (i : nat) (row : record),
         sample_rows combined !! i = Some row ->
         (i < 200)%nat
         /\ exists r,
              combined !! i = Some r
              /\ Dict.keys row = display_fields
              /\ forall field,
                   field ∈ display_fields ->
                   Dict.lookup row field = Some (dict_get r field).
Proof.
  intros combined. split.
  - unfold sample_rows. rewrite length_map, length_firstn. reflexivity.
  - intros i row Hi. unfold sample_rows in Hi.
    rewrite list_lookup_fmap in Hi.
    destruct (firstn 200 combined !! i) as [r|] eqn:E; [|discriminate].
    injection Hi as <-.
    assert (i < 200)%nat as Hlt.
    { apply lookup_lt_Some in E. rewrite length_firstn in E. lia. }
    split; [exact Hlt|]. exists r.
    split; [rewrite <- E; symmetry; apply lookup_take_lt, Hlt|].
    split; [reflexivity|].
    intros field Hf. unfold display_fields in Hf.
    repeat (apply elem_of_cons in Hf as [->|Hf]; [reflexivity|]).
    inversion Hf.
Qed.

Lemma fold_choice_elem {A} (pick : A -> A -> bool) (xs : list A) : forall x,
  fold_left (fun cur item => if pick cur item then item else cur) xs x
  ∈ x :: xs.
Proof.
  induction xs as [|y xs IH]; intros x; simpl; [left|].
  destruct (pick x y).
  - right. apply IH.
  - specialize (IH x). apply elem_of_cons in IH as [->|IH];
      [left | right; right; exact IH].
Qed.

Lemma cf_values_elem (combined : list record) x :
  x ∈ cf_values combined ->
  exists r, r ∈ combined /\ _to_float (dict_get r "carbon_factor") = Some x.
Proof.
  unfold cf_values. intros Hx. apply list_elem_of_In, in_flat_map in Hx.
  destruct Hx as (r & Hr & Hx). exists r.
  split; [apply list_elem_of_In, Hr|].
  destruct (_to_float (dict_get r "carbon_factor")) as [y|];
    [|destruct Hx].
  destruct Hx as [->|[]]. reflexivity.
Qed.

(** X22. The minimum and the maximum shown on the dashboard are carbon
    factors of records: when at least one record has a carbon factor that
    converts, each of the two is the converted carbon factor of some
    combined record. *)
Theorem carbon_factor_extremes_attained :
  forall (combined : list record) (s : stats),
    carbon_factor_stats combined = Ok s ->
    cf_values combined <> [] ->
    exists r_min r_max,
      r_min ∈ combined /\ r_max ∈ combined
      /\ _to_float (dict_get r_min "carbon_factor") = Some (min s)
      /\ _to_float (dict_get r_max "carbon_factor") = Some (max s).
Proof.
  intros combined s Hs Hne. unfold carbon_factor_stats in Hs.
  destruct (cf_values combined) as [|x xs] eqn:E; [contradiction|].
  unfold PyFloat.truediv_int, PyFloat.py_min, PyFloat.py_max in Hs.
  destruct (Z.of_nat (length (x :: xs)) =? 0)%Z; [discriminate|].
  simpl in Hs. injection Hs as <-. simpl.
  destruct (cf_values_elem combined
    (fold_left (fun cur item => if PrimFloat.ltb item cur then item else cur)
       xs x)) as (r1 & Hr1 & E1).
  { rewrite E.
    apply (fold_choice_elem (fun cur item => PrimFloat.ltb item cur)). }
  destruct (cf_values_elem combined
    (fold_left (fun cur item => if PrimFloat.ltb cur item then item else cur)
       xs x)) as (r2 & Hr2 & E2).
  { rewrite E.
    apply (fold_choice_elem (fun cur item => PrimFloat.ltb cur item)). }
  exists r1, r2. auto.
Qed.

Lemma carbon_factor_extremes_attained_witness :
  exists r_min r_max,
    r_min ∈ [ [("carbon_factor", VStr "20,000")]; [("carbon_factor", VStr "abc")];
              [("carbon_factor", VInt 10)] ]
    /\ r_max ∈ [ [("carbon_factor", VStr "20,000")];
                 [("carbon_factor", VStr "abc")]; [("carbon_factor", VInt 10)] ]
    /\ _to_float (dict_get r_min "carbon_factor")
       = Some (PyFloat.of_int 10)
    /\ _to_float (dict_get r_max "carbon_factor")
       = Some (PyFloat.of_int 20000).
Proof.
  apply (carbon_factor_extremes_attained
           [ [("carbon_factor", VStr "20,000")]; [("carbon_factor", VStr "abc")];
             [("carbon_factor", VInt 10)] ]
           {| avg := PrimFloat.div (PyFloat.of_int 20010) (PyFloat.of_int 2);
              min := PyFloat.of_int 10; max := PyFloat.of_int 20000 |}).
  - vm_compute. reflexivity.
  - vm_compute. discriminate.
Defined.

(** X23. An empty combined dataset is seen differently by the views.  When
    the stored dataset of the session is the empty list (the [combine] view
    stores one for a table whose only row has a blank key cell), the
    index reports that combined data exists, while the dashboard and both
    exports report that there is none and go back to the index. *)
Theorem empty_combined_dataset_views :
  forall (workbook_saved : list (list value) -> option string)
         (session : list (string * string)) (uuid_hex : string)
         (IN_MEMORY_STORE : list (string * Store.t)),
    Store.combined (store_at IN_MEMORY_STORE (session_sid session uuid_hex))
    = Some [] ->
    (exists frames_meta,
        response_of (index session uuid_hex IN_MEMORY_STORE)
        = RenderIndex frames_meta true)
    /\ (exists session' S',
          dashboard session uuid_hex IN_MEMORY_STORE
          = Ok (session', S', [NoCombinedData], Redirect "main.index"))
    /\ (exists session' S',
          export_csv session uuid_hex IN_MEMORY_STORE
          = (session', S', [NothingToExport], Redirect "main.index"))
    /\ (exists session' S',
          export_xlsx workbook_saved session uuid_hex IN_MEMORY_STORE
          = (session', S', [NothingToExport], Redirect "main.index")).
Proof.
  intros workbook_saved session uuid_hex S Hc.
  unfold index, dashboard, export_csv, export_xlsx, response_of.
  rewrite get_store_eq. fold (session_sid session uuid_hex).
  rewrite Hc. simpl. repeat split; eauto.
Qed.

Lemma empty_combined_dataset_views_witness :
  exists S,
    (exists session flashes,
        combine_view [("sid", "s1")] "fresh"
          [("s1", {| Store.frames := [ [ [("organisation_id", VStr " ")] ] ];
                     Store.combined := None; Store.meta := [] |})]
        = Ok (session, S, flashes, Redirect "main.dashboard"))
    /\ (exists frames_meta,
          response_of (index [("sid", "s1")] "fresh" S)
          = RenderIndex frames_meta true)
    /\ (exists session' S',
          dashboard [("sid", "s1")] "fresh" S
          = Ok (session', S', [NoCombinedData], Redirect "main.index"))
    /\ (exists session' S',
          export_csv [("sid", "s1")] "fresh" S
          = (session', S', [NothingToExport], Redirect "main.index"))
    /\ (exists session' S',
          export_xlsx (fun _ => Some "") [("sid", "s1")] "fresh" S
          = (session', S', [NothingToExport], Redirect "main.index")).
Proof.
  exists [("s1", {| Store.frames := [ [ [("organisation_id", VStr " ")] ] ];
                    Store.combined := Some []; Store.meta := [] |})].
  split.
  - eexists. eexists. vm_compute. reflexivity.
  - apply empty_combined_dataset_views. vm_compute. reflexivity.
Defined.
